(** * misoc/interconnect/csr_bus.py: the CSR bus, its SRAM bridge, its
      register bank and the bank array, embedded as synchronous machines.

    A signal of [w] bits is a [Z] in [0, 2^w); the wrap-around of an
    assignment is written out with [trunc].  Combinational signals are
    functions of the registers and of the inputs of the cycle; the sync
    statements make the [step] function of each module. *)

From Stdlib Require Import ZArith Lia Bool.
From stdpp Require Import base list strings.

Local Open Scope Z_scope.

(** ** Exceptions and the result of a constructor *)

Inductive exn := ValueError | ZeroDivisionError.

Inductive result (A : Type) :=
| Ok (a : A)
| Raise (e : exn).
Arguments Ok {A} a.
Arguments Raise {A} e.

Definition rbind {A B} (r : result A) (k : A -> result B) : result B :=
  match r with
  | Ok a => k a
  | Raise e => Raise e
  end.

Notation "'do' x <- r 'in' k" := (rbind r (fun x => k))
  (at level 10, x name, r at level 100, k at level 200).

(** ** Bit vectors *)

Module Bits.

(** The value a [w]-bit signal holds after it is assigned [x]. *)
Definition trunc (w x : Z) : Z := Z.land x (Z.ones (Z.max 0 w)).

(** [x[start:stop]] on a signal of [n] bits.  As Python's
    [slice.indices] does, the bounds are clamped to the length of the
    signal; an empty range is a signal of no bits. *)
Definition clamp (n i : Z) : Z := Z.min (Z.max 0 i) (Z.max 0 n).

Definition slice_len (n start stop : Z) : Z :=
  Z.max 0 (clamp n stop - clamp n start).

Definition slice (n x start stop : Z) : Z :=
  Z.land (Z.shiftr (trunc n x) (clamp n start))
         (Z.ones (slice_len n start stop)).

(** [Cat(c0, c1, ...)]: [c0] is the least significant chunk.  A chunk is
    a width and the value of its signal. *)
Fixpoint Cat (chunks : list (Z * Z)) : Z :=
  match chunks with
  | [] => 0
  | (w, v) :: rest => Z.lor (trunc w v) (Z.shiftl (Cat rest) (Z.max 0 w))
  end.

Fixpoint flen_Cat (chunks : list (Z * Z)) : Z :=
  match chunks with
  | [] => 0
  | (w, _) :: rest => Z.max 0 w + flen_Cat rest
  end.

End Bits.

(** ** The helpers of migen the module calls *)

Module Migen.
Import Bits.

(** Modelled from the spec: migen's [log2_int(n, need_pow2=True)], which
    is not in this repository.  The loop doubles [l] from 1 until it
    reaches [n] and counts the doublings; with [need_pow2] a value that
    is not an exact power of two is a [ValueError]. *)
Fixpoint log2_int_loop (fuel : nat) (n l r : Z) : Z * Z :=
  match fuel with
  | O => (l, r)
  | S fuel' =>
      if l <? n then log2_int_loop fuel' n (l * 2) (r + 1) else (l, r)
  end.

Definition log2_int (n : Z) (need_pow2 : bool) : result Z :=
  let '(l, r) := log2_int_loop (Z.to_nat n) n 1 0 in
  if need_pow2 && negb (l =? n) then Raise ValueError else Ok r.

(** Modelled from the spec: migen's [bits_for], the width of
    [Signal(max=depth)], the address of a memory port. *)
Definition bits_for (n : Z) : Z :=
  if 0 <? n
  then match log2_int (n + 1) false with Ok r => r | Raise _ => 0 end
  else match log2_int (- n) false with Ok r => r + 1 | Raise _ => 0 end.

(** Modelled from the spec: migen's [chooser(signal, shift, output, n,
    reverse)]: a [Case] on [shift] that drives [output] with the
    [w]-bit chunk [s] of [signal], where [s = n-i-1] when reversed; the
    largest key is the default case. *)
Definition chooser (flen_signal signal shift w n : Z) (reverse : bool) : Z :=
  let i := if (0 <=? shift) && (shift <? n) then shift else n - 1 in
  let s := if reverse then n - i - 1 else i in
  slice flen_signal signal (s * w) ((s + 1) * w).

(** Python's floor division, which raises on a zero divisor. *)
Definition floordiv (a b : Z) : result Z :=
  if b =? 0 then Raise ZeroDivisionError else Ok (a / b).

End Migen.

(** ** Interface *)

Record Interface := {
  data_width : Z;
  address_width : Z
}.

Definition Interface_default : Interface :=
  {| data_width := 8; address_width := 14 |}.

(** The signals the master drives in one cycle. *)
Record bus_in := {
  adr : Z;
  we : bool;
  dat_w : Z
}.

(** The bus during a read of [a], and during a write of [d] to [a]. *)
Definition read_at (a : Z) : bus_in := {| adr := a; we := false; dat_w := 0 |}.
Definition write_at (a d : Z) : bus_in := {| adr := a; we := true; dat_w := d |}.

(** A register description as the bank array handles it: a name and a
    size. *)
Record CSR := {
  csr_name : string;
  csr_size : Z
}.

(** Modelled from the spec: migen's [Memory] special, of which the module
    uses [width], [depth], [name_override], the optional attribute
    [bus_read_only] and a port.  The port reads synchronously (one cycle
    of latency) and its address is [Signal(max=depth)]. *)
Record Memory := {
  width : Z;
  depth : Z;
  init : list Z;
  name_override : string;
  bus_read_only : option bool
}.

Definition flen_port_adr (m : Memory) : Z := Migen.bits_for (depth m - 1).

(** ** SRAM *)

Module SRAM.
Import Bits Migen.

Record t := {
  bus : Interface;
  address : Z;
  mem : Memory;
  csrw_per_memw : Z;
  word_bits : Z;
  page_bits : Z;
  _page : option CSR;
  read_only : bool
}.

(** [SRAM.__init__] up to the [###] line. *)
Definition make (mem_or_size : Memory + Z) (address : Z)
    (read_only : option bool) (init : list Z) (bus : option Interface)
    : result t :=
  let bus := match bus with Some b => b | None => Interface_default end in
  let data_width := data_width bus in
  do mem <- match mem_or_size with
         | inl m => Ok m
         | inr size =>
             do bytes <- floordiv data_width 8 in
             do depth <- floordiv size bytes in
             Ok {| width := data_width; depth := depth; init := init;
                   name_override := "mem"; bus_read_only := None |}
         end in
  do csrw_per_memw <- floordiv (width mem + data_width - 1) data_width in
  do word_bits <- log2_int csrw_per_memw true in
  do pages <- floordiv (depth mem * csrw_per_memw + 511) 512 in
  do page_bits <- log2_int pages false in
  let _page :=
    if page_bits =? 0 then None
    else Some {| csr_name := name_override mem +:+ "_page";
                 csr_size := page_bits |} in
  let read_only :=
    match read_only with
    | Some b => b
    | None => match bus_read_only mem with Some b => b | None => false end
    end in
  Ok {| bus := bus; address := address; mem := mem;
        csrw_per_memw := csrw_per_memw; word_bits := word_bits;
        page_bits := page_bits; _page := _page; read_only := read_only |}.

Definition get_csrs (c : t) : list CSR :=
  match _page c with
  | None => []
  | Some p => [p]
  end.

(** *** The logic after the [###] line

    The registers of the bridge: [sel_r], [word_index], the holding
    registers [wregs], and, of the memory and its port, the contents and
    the registered read address. *)
Record state := {
  sel_r : bool;
  word_index : Z;
  wregs : list Z;
  storage : list Z;
  memadr : Z
}.

Definition flen_adr (c : t) : Z := address_width (bus c).
Definition flen_dat (c : t) : Z := data_width (bus c).

(** [sel.eq(self.bus.adr[9:] == address)] *)
Definition sel (c : t) (i : bus_in) : bool :=
  slice (flen_adr c) (adr i) 9 (flen_adr c) =? address c.

(** [self.bus.adr[:word_bits]] *)
Definition adr_word (c : t) (i : bus_in) : Z :=
  slice (flen_adr c) (adr i) 0 (word_bits c).

(** [memword_chunks = [self.bus.dat_w] + list(reversed(wregs))] *)
Definition memword_chunks (c : t) (s : state) (i : bus_in) : list (Z * Z) :=
  (flen_dat c, dat_w i) :: ((fun v => (flen_dat c, v)) <$> reverse (wregs s)).

(** [port.we]; a port that is not write capable has no such signal. *)
Definition port_we (c : t) (i : bus_in) : bool :=
  if read_only c then false
  else if negb (word_bits c =? 0)
       then sel c i && we i && (adr_word c i =? csrw_per_memw c - 1)
       else sel c i && we i.

(** [port.dat_w], a signal of [mem.width] bits. *)
Definition port_dat_w (c : t) (s : state) (i : bus_in) : Z :=
  trunc (width (mem c))
    (if negb (word_bits c =? 0)
     then Cat (memword_chunks c s i)
     else trunc (flen_dat c) (dat_w i)).

(** [port.adr]; [pv] is the storage of the page register, a signal
    driven from outside the bridge. *)
Definition port_adr (c : t) (i : bus_in) (pv : Z) : Z :=
  let n := flen_port_adr (mem c) in
  let wb := word_bits c in
  trunc n
    match _page c with
    | None => slice (flen_adr c) (adr i) wb (wb + n)
    | Some p =>
        let stop := wb + n - csr_size p in
        Cat [(slice_len (flen_adr c) wb stop,
              slice (flen_adr c) (adr i) wb stop);
             (csr_size p, pv)]
    end.

(** [port.dat_r]: the word at the address the port registered at the
    last clock edge. *)
Definition port_dat_r (s : state) : Z :=
  default 0 (storage s !! Z.to_nat (memadr s)).

(** [self.bus.dat_r], combinational: it rests at 0 when no statement
    drives it. *)
Definition bus_dat_r (c : t) (s : state) : Z :=
  if negb (word_bits c =? 0) then
    let flen_word := csrw_per_memw c * flen_dat c in
    let word_expanded := trunc flen_word (port_dat_r s) in
    if sel_r s
    then chooser flen_word word_expanded (word_index s)
                 (flen_dat c) (csrw_per_memw c) true
    else 0
  else
    if sel_r s then trunc (flen_dat c) (port_dat_r s) else 0.

(** The holding register [i] of [range(csrw_per_memw-1)] after the
    clock edge. *)
Definition wreg_next (c : t) (s : state) (i : bus_in) (k : Z) : Z :=
  if sel c i && we i && (adr_word c i =? k)
  then trunc (flen_dat c) (dat_w i)
  else default 0 (wregs s !! Z.to_nat k).

(** One clock edge. *)
Definition step (c : t) (s : state) (i : bus_in) (pv : Z) : state :=
  {| sel_r := sel c i;
     word_index :=
       if negb (word_bits c =? 0) then adr_word c i else word_index s;
     wregs :=
       if negb (word_bits c =? 0) && negb (read_only c)
       then wreg_next c s i <$> seqZ 0 (csrw_per_memw c - 1)
       else wregs s;
     storage :=
       if port_we c i
       then <[Z.to_nat (port_adr c i pv) := port_dat_w c s i]> (storage s)
       else storage s;
     memadr := port_adr c i pv |}.

(** The clock edges of a list of cycles, each with the bus and the page
    storage of the cycle. *)
Definition run (c : t) (s : state) (cycles : list (bus_in * Z)) : state :=
  foldl (fun s x => step c s x.1 x.2) s cycles.

(** The sub-word [k] of a memory word, as the read path orders them. *)
Definition subword (c : t) (k word : Z) : Z :=
  if negb (word_bits c =? 0) then
    let flen_word := csrw_per_memw c * flen_dat c in
    chooser flen_word (trunc flen_word word) k
            (flen_dat c) (csrw_per_memw c) true
  else trunc (flen_dat c) word.

(** The bus address [a] addresses, with the page storage [pv], the
    sub-word [k] of the entry [e] of the bridge. *)
Definition targets (c : t) (pv e k a : Z) : Prop :=
  sel c (read_at a) = true /\
  adr_word c (read_at a) = k /\
  port_adr c (read_at a) pv = e.

(** The registers at reset; the memory holds [init], then zeros. *)
Definition reset (c : t) : state :=
  {| sel_r := false;
     word_index := 0;
     wregs := replicate (Z.to_nat (csrw_per_memw c - 1)) 0;
     storage := resize (Z.to_nat (depth (mem c))) 0 (init (mem c));
     memadr := 0 |}.

End SRAM.

(** ** Initiator

    The bus activity of [Initiator.do_simulation] for one transaction: a
    [TWrite] holds [adr], [we = 1] and [dat_w] for one cycle; a [TRead]
    holds [adr] with [we = 0] for two cycles and takes [dat_r] in the
    second of them. *)

Module Initiator.

Inductive transaction :=
| TRead (address : Z)
| TWrite (address data : Z).

Definition perform (c : SRAM.t) (pv : Z) (s : SRAM.state) (tr : transaction)
    : option Z * SRAM.state :=
  match tr with
  | TWrite a d =>
      (None, SRAM.step c s (write_at a d) pv)
  | TRead a =>
      let s1 := SRAM.step c s (read_at a) pv in
      (Some (SRAM.bus_dat_r c s1), SRAM.step c s1 (read_at a) pv)
  end.

(** A generator of transactions run to its end: the data of the reads,
    in order, and the registers left. *)
Fixpoint run (c : SRAM.t) (pv : Z) (s : SRAM.state)
    (generator : list transaction) : list Z * SRAM.state :=
  match generator with
  | [] => ([], s)
  | tr :: rest =>
      let '(d, s1) := perform c pv s tr in
      let '(ds, s2) := run c pv s1 rest in
      (match d with Some v => v :: ds | None => ds end, s2)
  end.

End Initiator.

(** ** CSRBank *)

Module CSRBank.
Import Bits Migen.

Record t := {
  bus : Interface;
  address : Z;
  simple_csrs : list CSR;
  decode_bits : Z
}.

(** Modelled from the spec: [GenericBank.__init__], which is not under
    src: the simple registers are those of a size above 0, and
    [decode_bits = ceil(log2(register_count))]. *)
Definition GenericBank (description : list CSR) : list CSR * Z :=
  let simple := filter (fun c => 0 < csr_size c) description in
  (simple,
   match log2_int (Z.of_nat (length simple)) false with
   | Ok r => r
   | Raise _ => 0
   end).

Definition make (description : list CSR) (address : Z)
    (bus : option Interface) : t :=
  let bus := match bus with Some b => b | None => Interface_default end in
  let '(simple, bits) := GenericBank description in
  {| bus := bus; address := address;
     simple_csrs := simple; decode_bits := bits |}.

(** The register of the bank: [self.bus.dat_r] is driven from the sync
    domain. *)
Record state := {
  dat_r : Z
}.

Definition flen_adr (c : t) : Z := address_width (bus c).
Definition flen_dat (c : t) : Z := data_width (bus c).

(** [sel.eq(self.bus.adr[9:] == address)] *)
Definition sel (c : t) (i : bus_in) : bool :=
  slice (flen_adr c) (adr i) 9 (flen_adr c) =? address c.

(** [self.bus.adr[:self.decode_bits]] *)
Definition adr_index (c : t) (i : bus_in) : Z :=
  slice (flen_adr c) (adr i) 0 (decode_bits c).

(** [c.r.eq(self.bus.dat_w[:c.size])], for the register [k] of
    [enumerate(self.simple_csrs)]; [c.r] has [c.size] bits. *)
Definition r (c : t) (k : nat) (i : bus_in) : option Z :=
  (fun csr => trunc (csr_size csr)
                (slice (flen_dat c) (dat_w i) 0 (csr_size csr)))
    <$> simple_csrs c !! k.

(** [c.re.eq(sel & we & (adr[:decode_bits] == i))] *)
Definition re (c : t) (k : nat) (i : bus_in) : option bool :=
  (fun _ => sel c i && we i && (adr_index c i =? Z.of_nat k))
    <$> simple_csrs c !! k.

(** [c.w] of the register [k], a signal of [c.size] bits driven from
    outside the bank with the value [w !! k]. *)
Definition readable (c : t) (w : list Z) (k : nat) : option Z :=
  (fun csr => trunc (csr_size csr) (default 0 (w !! k)))
    <$> simple_csrs c !! k.

(** One clock edge: [dat_r.eq(0)], then [If(sel, Case(adr[:decode_bits],
    brcases))], a [Case] with no default. *)
Definition step (c : t) (s : state) (i : bus_in) (w : list Z) : state :=
  let cleared := 0 in
  {| dat_r :=
       if sel c i
       then match readable c w (Z.to_nat (adr_index c i)) with
            | Some v => trunc (flen_dat c) v
            | None => cleared
            end
       else cleared |}.

Definition reset : state := {| dat_r := 0 |}.

(** The clock edges of a list of cycles, each with the bus and the
    values [w] of the cycle. *)
Definition run (c : t) (s : state) (cycles : list (bus_in * list Z)) : state :=
  foldl (fun s x => step c s x.1 x.2) s cycles.

End CSRBank.

(** ** CSRBankArray *)

Module CSRBankArray.

(** What [obj.get_csrs()] returns: a list made for the call, or the list
    object the child keeps, which the child hands out at every call and
    may share with other children.  List objects live in a store and are
    named by their location in it, so that the [csrs +=] of the scan,
    which extends the list in place, reaches every holder of the list. *)
Inductive csrs_method :=
| Returns_new (l : list CSR)
| Returns_stored (r : nat).

(** A child of the source as [scan] sees it: [get_csrs] and
    [get_memories] where the object has them ([hasattr]). *)
Record Obj := {
  get_csrs : option csrs_method;
  get_memories : option (list Memory)
}.

Inductive submodule :=
| Sub_mmap (mmap : SRAM.t)
| Sub_rmap (rmap : CSRBank.t).

(** The attributes of the array; [source] is the enumeration
    [xdir(self.source, True)], the children by name.  A bank holds its
    list [csrs] by location. *)
Record t := {
  source : list (string * Obj);
  banks : list (string * nat * Z * CSRBank.t);
  srams : list (string * Memory * Z * SRAM.t);
  submodules : list submodule
}.

(** The list objects, by location. *)
Abbreviation store := (list (list CSR)).

Section Scan.
(** [address_map] may have side effects: it runs on a state of its
    own, [St].  [ifargs] is the interface that [csr.Interface]
    builds from the arguments [ifargs] and [ifkwargs]. *)
Context {St : Type}.
Variable address_map : string -> option Memory -> St -> option Z * St.
Variable ifargs : Interface.

(** Statements of [scan]: they run on the array with the store of the
    lists, and on the state of [address_map]; an exception ends them
    where it is raised. *)
Definition M (A : Type) : Type :=
  (t * store) * St -> result A * ((t * store) * St).

Definition ret {A} (a : A) : M A := fun s => (Ok a, s).

Definition bind {A B} (m : M A) (k : A -> M B) : M B :=
  fun s =>
    match m s with
    | (Ok a, s') => k a s'
    | (Raise e, s') => (Raise e, s')
    end.

Definition lift {A} (r : result A) : M A := fun s => (r, s).

Definition modify (f : t -> t) : M unit :=
  fun s => (Ok tt, ((f s.1.1, s.1.2), s.2)).

Definition call_address_map (name : string) (memory : option Memory)
    : M (option Z) :=
  fun s => let '(mapaddr, st) := address_map name memory s.2 in
           (Ok mapaddr, (s.1, st)).

(** A new list object. *)
Definition new_list (l : list CSR) : M nat :=
  fun s => (Ok (length s.1.2), ((s.1.1, s.1.2 ++ [l]), s.2)).

(** [csrs += l]: the list at [csrs] is extended in place. *)
Definition extend (csrs : nat) (l : list CSR) : M unit :=
  fun s => (Ok tt, ((s.1.1, alter (fun old => old ++ l) csrs s.1.2), s.2)).

(** The elements of the list at [csrs] now. *)
Definition contents (csrs : nat) : M (list CSR) :=
  fun s => (Ok (default [] (s.1.2 !! csrs)), s).

Local Notation "'exec' x <- m 'in' k" := (bind m (fun x => k))
  (at level 10, x name, m at level 100, k at level 200).

Definition add_submodule (x : submodule) (a : t) : t :=
  {| source := source a; banks := banks a; srams := srams a;
     submodules := submodules a ++ [x] |}.

Definition append_sram (x : string * Memory * Z * SRAM.t) (a : t) : t :=
  {| source := source a; banks := banks a; srams := srams a ++ [x];
     submodules := submodules a |}.

Definition append_bank (x : string * nat * Z * CSRBank.t) (a : t) : t :=
  {| source := source a; banks := banks a ++ [x]; srams := srams a;
     submodules := submodules a |}.

(** [for memory in memories: ...], with the list [csrs] it extends. *)
Fixpoint scan_memories (name : string) (memories : list Memory)
    (csrs : nat) : M unit :=
  match memories with
  | [] => ret tt
  | memory :: rest =>
      exec mapaddr <- call_address_map name (Some memory) in
      match mapaddr with
      | None => scan_memories name rest csrs
      | Some mapaddr =>
          exec mmap <- lift (SRAM.make (inl memory) mapaddr None []
                                       (Some ifargs)) in
          exec _ <- modify (add_submodule (Sub_mmap mmap)) in
          exec _ <- extend csrs (SRAM.get_csrs mmap) in
          exec _ <- modify (append_sram (name, memory, mapaddr, mmap)) in
          scan_memories name rest csrs
      end
  end.

(** [csrs = obj.get_csrs()] when the object has the method, else a new
    empty list. *)
Definition own_csrs (obj : Obj) : M nat :=
  match get_csrs obj with
  | Some (Returns_new l) => new_list l
  | Some (Returns_stored r) => ret r
  | None => new_list []
  end.

(** The body of the loop down to the block under [if hasattr(obj,
    "get_memories")]; it returns the list [csrs]. *)
Definition memories_of (name : string) (obj : Obj) : M nat :=
  exec csrs <- own_csrs obj in
  exec _ <- match get_memories obj with
            | Some memories => scan_memories name memories csrs
            | None => ret tt
            end in
  ret csrs.

(** The body of [for name, obj in xdir(self.source, True)]. *)
Definition scan_obj (name : string) (obj : Obj) : M unit :=
  exec csrs <- memories_of name obj in
  exec l <- contents csrs in
  match l with
  | [] => ret tt
  | _ :: _ =>
      exec mapaddr <- call_address_map name None in
      match mapaddr with
      | None => ret tt
      | Some mapaddr =>
          let rmap := CSRBank.make l mapaddr (Some ifargs) in
          exec _ <- modify (add_submodule (Sub_rmap rmap)) in
          modify (append_bank (name, csrs, mapaddr, rmap))
      end
  end.

Fixpoint scan_objs (objs : list (string * Obj)) : M unit :=
  match objs with
  | [] => ret tt
  | (name, obj) :: rest =>
      exec _ <- scan_obj name obj in scan_objs rest
  end.

Definition clear (a : t) : t :=
  {| source := source a; banks := []; srams := [];
     submodules := submodules a |}.

Definition scan : M unit :=
  exec _ <- modify clear in
  fun s => scan_objs (source s.1.1) s.

End Scan.

(** An [address_map] without side effects that matter: what it returns
    is a function of the name and of the memory alone. *)
Definition stateless {St : Type}
    (address_map : string -> option Memory -> St -> option Z * St) : Prop :=
  exists f, forall name memory st, (address_map name memory st).1 = f name memory.

(** A child whose [get_csrs], if it has one, makes a list for each
    call; a source of such children. *)
Definition makes_new_list (obj : Obj) : Prop :=
  match get_csrs obj with
  | Some (Returns_stored _) => False
  | _ => True
  end.

Definition new_lists (objs : list (string * Obj)) : Prop :=
  Forall (fun x => makes_new_list x.2) objs.

(** A bank without the location of its list: the name, the address and
    the bank made. *)
Definition bank_key (x : string * nat * Z * CSRBank.t)
    : string * Z * CSRBank.t :=
  (x.1.1.1, x.1.2, x.2).

(** Two arrays with the same banks and bridges. *)
Definition same_maps {St : Type} (s s' : (t * store) * St) : Prop :=
  bank_key <$> banks s.1.1 = bank_key <$> banks s'.1.1 /\
  srams s.1.1 = srams s'.1.1.

Definition get_rmaps (a : t) : list CSRBank.t :=
  (fun x => x.2) <$> banks a.

Definition get_mmaps (a : t) : list SRAM.t :=
  (fun x => x.2) <$> srams a.

Definition get_buses (a : t) : list Interface :=
  (CSRBank.bus <$> get_rmaps a) ++ (SRAM.bus <$> get_mmaps a).

(** The (name, assigned address) pairs of the banks and of the memory
    bridges. *)
Definition bank_addresses (a : t) : list (string * Z) :=
  (fun x => (x.1.1.1, x.1.2)) <$> banks a.

Definition sram_addresses (a : t) : list (string * Z) :=
  (fun x => (x.1.1.1, x.1.2)) <$> srams a.

End CSRBankArray.

(** ** Words of four bytes *)

Module Word32.
Import Bits.

(** The 32-bit word whose bytes are, from the most significant, the
    values the 8-bit bus carries for [d0], [d1], [d2], [d3]. *)
Definition word_of_bytes (d0 d1 d2 d3 : Z) : Z :=
  trunc 8 d3 + trunc 8 d2 * 2 ^ 8 + trunc 8 d1 * 2 ^ 16 + trunc 8 d0 * 2 ^ 24.

End Word32.

(** ** The statements of the specification that the code does not follow

    Written from the words of the specification, to be compared with the
    definitions above. *)

Module Spec.
Import Bits.

(** "bits [word_index_bits + ceil(log2(depth)), end) equal the
    bridge's assigned address" *)
Definition sram_sel (c : SRAM.t) (i : bus_in) : bool :=
  let n := SRAM.flen_adr c in
  slice n (adr i) (SRAM.word_bits c + Z.log2_up (depth (SRAM.mem c))) n
    =? SRAM.address c.

(** "sel = (address[decode_bits:] == bank_address)" *)
Definition bank_sel (c : CSRBank.t) (i : bus_in) : bool :=
  let n := CSRBank.flen_adr c in
  slice n (adr i) (CSRBank.decode_bits c) n =? CSRBank.address c.

(** "write_strobe = sel & write_enable & (address[:decode_bits] == i)" *)
Definition bank_re (c : CSRBank.t) (k : nat) (i : bus_in) : bool :=
  bank_sel c i && we i && (CSRBank.adr_index c i =? Z.of_nat k).

End Spec.

(** ** Instances used as examples *)

Module Examples.

Definition mem24 : Memory :=
  {| width := 24; depth := 16; init := []; name_override := "m";
     bus_read_only := None |}.

(** A byte-wide memory of 4 words, mapped at address 1. *)
Definition mem8x4 : Memory :=
  {| width := 8; depth := 4; init := []; name_override := "small";
     bus_read_only := None |}.

Definition sram8x4 : SRAM.t :=
  {| SRAM.bus := Interface_default; SRAM.address := 1;
     SRAM.mem := mem8x4; SRAM.csrw_per_memw := 1; SRAM.word_bits := 0;
     SRAM.page_bits := 0; SRAM._page := None; SRAM.read_only := false |}.

(** A memory of 16 words of 32 bits, mapped at address 3. *)
Definition mem32x16 : Memory :=
  {| width := 32; depth := 16; init := []; name_override := "buf";
     bus_read_only := None |}.

Definition sram32x16 : SRAM.t :=
  {| SRAM.bus := Interface_default; SRAM.address := 3;
     SRAM.mem := mem32x16; SRAM.csrw_per_memw := 4; SRAM.word_bits := 2;
     SRAM.page_bits := 0; SRAM._page := None; SRAM.read_only := false |}.

(** A memory of 256 words of 32 bits: 1024 bus words, two pages. *)
Definition mem32x256 : Memory :=
  {| width := 32; depth := 256; init := []; name_override := "big";
     bus_read_only := None |}.

Definition sram32x256 : SRAM.t :=
  {| SRAM.bus := Interface_default; SRAM.address := 2;
     SRAM.mem := mem32x256; SRAM.csrw_per_memw := 4; SRAM.word_bits := 2;
     SRAM.page_bits := 1;
     SRAM._page := Some {| csr_name := "big_page"; csr_size := 1 |};
     SRAM.read_only := false |}.

(** A bank of two byte registers at address 0. *)
Definition bank2 : CSRBank.t :=
  {| CSRBank.bus := Interface_default; CSRBank.address := 0;
     CSRBank.simple_csrs := [ {| csr_name := "a"; csr_size := 8 |};
                              {| csr_name := "b"; csr_size := 8 |} ];
     CSRBank.decode_bits := 1 |}.

(** A source of three children: "a" has a register, "b" a register
    and a memory, "c" only a memory, one that needs a page register. *)
Definition source3 : list (string * CSRBankArray.Obj) :=
  [ ("a", {| CSRBankArray.get_csrs :=
               Some (CSRBankArray.Returns_new
                       [ {| csr_name := "x"; csr_size := 8 |} ]);
             CSRBankArray.get_memories := None |});
    ("b", {| CSRBankArray.get_csrs :=
               Some (CSRBankArray.Returns_new
                       [ {| csr_name := "y"; csr_size := 8 |} ]);
             CSRBankArray.get_memories := Some [mem32x16] |});
    ("c", {| CSRBankArray.get_csrs := None;
             CSRBankArray.get_memories := Some [mem32x256] |}) ].

Definition array3 : CSRBankArray.t :=
  {| CSRBankArray.source := source3; CSRBankArray.banks := [];
     CSRBankArray.srams := []; CSRBankArray.submodules := [] |}.

(** A source of two children that hand out the same stored list, the
    list at location 0 of the store: "a" has no memory, "c" has one that
    needs a page register. *)
Definition source_shared : list (string * CSRBankArray.Obj) :=
  [ ("a", {| CSRBankArray.get_csrs := Some (CSRBankArray.Returns_stored 0);
             CSRBankArray.get_memories := None |});
    ("c", {| CSRBankArray.get_csrs := Some (CSRBankArray.Returns_stored 0);
             CSRBankArray.get_memories := Some [mem32x256] |}) ].

(** A source of one child that hands out its stored list, the list at
    location 0 of the store, and has a memory that needs a page
    register. *)
Definition source_stored : list (string * CSRBankArray.Obj) :=
  [ ("c", {| CSRBankArray.get_csrs := Some (CSRBankArray.Returns_stored 0);
             CSRBankArray.get_memories := Some [mem32x256] |}) ].

Definition array_stored : CSRBankArray.t :=
  {| CSRBankArray.source := source_stored; CSRBankArray.banks := [];
     CSRBankArray.srams := []; CSRBankArray.submodules := [] |}.

Definition array_shared : CSRBankArray.t :=
  {| CSRBankArray.source := source_shared; CSRBankArray.banks := [];
     CSRBankArray.srams := []; CSRBankArray.submodules := [] |}.


(** An address_map without state: the memories at 16 plus the length of
    the name of the child, the register banks at that length, and
    nothing for the child "b". *)
Definition fixed_map (name : string) (memory : option Memory) (st : unit)
    : option Z * unit :=
  (if String.eqb name "b" then None
   else Some (match memory with
              | Some _ => 16 + Z.of_nat (String.length name)
              | None => Z.of_nat (String.length name)
              end), st).

(** A memory of 2 words of 8192 bits: 1024 bus words per entry, 10
    word index bits, 2 page bits, and a port address of 1 bit. *)
Definition mem8192x2 : Memory :=
  {| width := 8192; depth := 2; init := []; name_override := "wide";
     bus_read_only := None |}.

Definition sram8192x2 : SRAM.t :=
  {| SRAM.bus := Interface_default; SRAM.address := 0;
     SRAM.mem := mem8192x2; SRAM.csrw_per_memw := 1024; SRAM.word_bits := 10;
     SRAM.page_bits := 2;
     SRAM._page := Some {| csr_name := "wide_page"; csr_size := 2 |};
     SRAM.read_only := false |}.

(** A read-only byte memory of 4 words, mapped at address 1. *)
Definition rom8x4 : Memory :=
  {| width := 8; depth := 4; init := [1; 2; 3; 4]; name_override := "rom";
     bus_read_only := Some true |}.

Definition sram_rom8x4 : SRAM.t :=
  {| SRAM.bus := Interface_default; SRAM.address := 1;
     SRAM.mem := rom8x4; SRAM.csrw_per_memw := 1; SRAM.word_bits := 0;
     SRAM.page_bits := 0; SRAM._page := None; SRAM.read_only := true |}.

(** A bank of three registers at address 0: two decode bits, and no
    register at the index 3. *)
Definition bank3 : CSRBank.t :=
  {| CSRBank.bus := Interface_default; CSRBank.address := 0;
     CSRBank.simple_csrs := [ {| csr_name := "a"; csr_size := 8 |};
                              {| csr_name := "b"; csr_size := 8 |};
                              {| csr_name := "c"; csr_size := 4 |} ];
     CSRBank.decode_bits := 2 |}.

End Examples.

(** * Properties *)

Module MigenFacts.
Import Bits Migen.

Lemma log2_int_loop_spec fuel : forall n l r,
  0 < l -> n - l < Z.of_nat fuel -> 0 <= r ->
  let '(l', r') := log2_int_loop fuel n l r in
  n <= l' /\ r <= r' /\ l' = l * 2 ^ (r' - r) /\
  (r < r' -> l' < 2 * n).
Proof.
  induction fuel as [|fuel IH]; intros n l r Hl Hfuel Hr; cbn [log2_int_loop].
  - replace (r - r) with 0 by lia. cbn. lia.
  - destruct (Z.ltb_spec l n) as [Hlt|Hge].
    + specialize (IH n (l * 2) (r + 1)).
      destruct (log2_int_loop fuel n (l * 2) (r + 1)) as [l' r'].
      destruct IH as (H1 & H2 & H3 & H4); [lia..|].
      repeat split; [lia..| |].
      * rewrite H3. replace (r' - r) with (Z.succ (r' - (r + 1))) by lia.
        rewrite Z.pow_succ_r by lia. ring.
      * intros _. destruct (Z.eq_dec (r + 1) r') as [<-|Hne]; [|lia].
        replace (r + 1 - (r + 1)) with 0 in H3 by lia. cbn in H3. lia.
    + replace (r - r) with 0 by lia. cbn. lia.
Qed.

(** The loop of [log2_int] ends within its fuel: its result is the
    least power of two that reaches [n]. *)
Lemma log2_int_loop_pow2 n :
  let '(l, r) := log2_int_loop (Z.to_nat n) n 1 0 in
  0 <= r /\ l = 2 ^ r /\ n <= l /\ (0 < r -> l < 2 * n).
Proof.
  pose proof (log2_int_loop_spec (Z.to_nat n) n 1 0) as H.
  destruct (Z.le_gt_cases n 1) as [Hn|Hn].
  - destruct (Z.to_nat n) as [|k] eqn:Hk; cbn [log2_int_loop].
    + cbn. lia.
    + destruct (Z.ltb_spec 1 n); [lia|]. cbn. lia.
  - destruct (log2_int_loop (Z.to_nat n) n 1 0) as [l r].
    destruct H as (H1 & H2 & H3 & H4); [lia..|].
    replace (r - 0) with r in H3 by lia. lia.
Qed.

Lemma log2_int_pow2 n r : log2_int n true = Ok r -> 0 <= r /\ n = 2 ^ r.
Proof.
  unfold log2_int. pose proof (log2_int_loop_pow2 n) as H.
  destruct (log2_int_loop (Z.to_nat n) n 1 0) as [l r'].
  cbn [andb]. destruct (Z.eqb_spec l n) as [->|Hne]; cbn [negb]; [|discriminate].
  intros [= ->]. lia.
Qed.

Lemma log2_int_not_pow2 n :
  (forall k, 0 <= k -> n <> 2 ^ k) -> log2_int n true = Raise ValueError.
Proof.
  intros Hn. destruct (log2_int n true) as [r|e] eqn:H.
  - apply log2_int_pow2 in H as [Hr ->]. now destruct (Hn r).
  - unfold log2_int in H. destruct (log2_int_loop _ _ _ _).
    destruct (_ && _); [congruence | discriminate].
Qed.

Lemma log2_int_total n : exists r, log2_int n false = Ok r /\ 0 <= r.
Proof.
  unfold log2_int. pose proof (log2_int_loop_pow2 n) as H.
  destruct (log2_int_loop (Z.to_nat n) n 1 0) as [l r]. cbn.
  exists r. split; [reflexivity | lia].
Qed.

End MigenFacts.

Module BitsFacts.
Import Bits.

Lemma trunc_mod w x : trunc w x = x mod 2 ^ Z.max 0 w.
Proof. unfold trunc. apply Z.land_ones. lia. Qed.

Lemma trunc_range w x : 0 <= trunc w x < 2 ^ Z.max 0 w.
Proof. rewrite trunc_mod. apply Z.mod_pos_bound. apply Z.pow_pos_nonneg; lia. Qed.

Lemma trunc_nonneg w x : 0 <= trunc w x.
Proof. apply trunc_range. Qed.

Lemma trunc_small w x : 0 <= x < 2 ^ Z.max 0 w -> trunc w x = x.
Proof. intros H. rewrite trunc_mod. now apply Z.mod_small. Qed.

Lemma trunc_idemp w x : trunc w (trunc w x) = trunc w x.
Proof. apply trunc_small, trunc_range. Qed.

Lemma slice_div_mod n x start stop :
  slice n x start stop =
  (x mod 2 ^ Z.max 0 n / 2 ^ clamp n start) mod 2 ^ slice_len n start stop.
Proof.
  unfold slice. rewrite trunc_mod.
  rewrite Z.land_ones by (unfold slice_len; lia).
  rewrite Z.shiftr_div_pow2 by (unfold clamp; lia). reflexivity.
Qed.

Lemma slice_range n x start stop :
  0 <= slice n x start stop < 2 ^ slice_len n start stop.
Proof.
  rewrite slice_div_mod. apply Z.mod_pos_bound.
  apply Z.pow_pos_nonneg; [lia | unfold slice_len; lia].
Qed.

(** [x[start:]] on a signal of [n] bits. *)
Lemma slice_high n x start :
  0 <= start -> slice n x start n = x mod 2 ^ Z.max 0 n / 2 ^ clamp n start.
Proof.
  intros Hs. rewrite slice_div_mod. apply Z.mod_small.
  assert (Hc : 0 <= clamp n start <= Z.max 0 n) by (unfold clamp; lia).
  assert (Hl : slice_len n start n = Z.max 0 n - clamp n start)
    by (unfold slice_len, clamp; lia).
  rewrite Hl. split.
  - apply Z.div_pos; [apply Z.mod_pos_bound | ]; apply Z.pow_pos_nonneg; lia.
  - apply Z.div_lt_upper_bound; [apply Z.pow_pos_nonneg; lia|].
    rewrite <- Z.pow_add_r by lia.
    replace (clamp n start + (Z.max 0 n - clamp n start)) with (Z.max 0 n) by lia.
    apply Z.mod_pos_bound. apply Z.pow_pos_nonneg; lia.
Qed.

End BitsFacts.

Module SRAMFacts.
Import Bits Migen BitsFacts MigenFacts SRAM Examples.

Lemma rbind_Ok {A B} (r : result A) (k : A -> result B) b :
  rbind r k = Ok b -> exists a, r = Ok a /\ k a = Ok b.
Proof. destruct r as [a|e]; cbn; [eauto | discriminate]. Qed.

Lemma floordiv_Ok a b q : floordiv a b = Ok q -> b <> 0 /\ q = a / b.
Proof.
  unfold floordiv. destruct (Z.eqb_spec b 0); [discriminate|].
  now intros [= <-].
Qed.

(** What a successful [make] fixes. *)
Lemma make_Ok mem_or_size a ro ini b c :
  make mem_or_size a ro ini b = Ok c ->
  let bus0 := match b with Some b => b | None => Interface_default end in
  bus c = bus0 /\ address c = a /\
  data_width bus0 <> 0 /\
  csrw_per_memw c = (width (mem c) + data_width bus0 - 1) / data_width bus0 /\
  log2_int (csrw_per_memw c) true = Ok (word_bits c) /\
  log2_int ((depth (mem c) * csrw_per_memw c + 511) / 512) false
    = Ok (page_bits c) /\
  _page c = (if page_bits c =? 0 then None
             else Some {| csr_name := name_override (mem c) +:+ "_page";
                          csr_size := page_bits c |}) /\
  match mem_or_size with
  | inl m => mem c = m
  | inr _ => width (mem c) = data_width bus0
  end.
Proof.
  intros H bus0. unfold make in H. fold bus0 in H.
  apply rbind_Ok in H as (m & Hm & H).
  apply rbind_Ok in H as (csrw & Hcsrw & H).
  apply rbind_Ok in H as (wb & Hwb & H).
  apply rbind_Ok in H as (pages & Hpages & H).
  apply rbind_Ok in H as (pb & Hpb & H).
  apply floordiv_Ok in Hcsrw as [Hd ->].
  apply floordiv_Ok in Hpages as [_ ->].
  injection H as <-. cbn.
  repeat split; try assumption.
  destruct mem_or_size as [m0|size].
  - now injection Hm.
  - apply rbind_Ok in Hm as (bytes & _ & Hm).
    apply rbind_Ok in Hm as (d & _ & Hm).
    now injection Hm as <-.
Qed.

Lemma make_word_bits mem_or_size a ro ini b c :
  make mem_or_size a ro ini b = Ok c ->
  0 <= word_bits c /\ csrw_per_memw c = 2 ^ word_bits c.
Proof.
  intros H. apply make_Ok in H as (_ & _ & _ & _ & Hwb & _).
  now apply log2_int_pow2 in Hwb.
Qed.

(** C10. Constructing an SRAM bridge raises an error for every memory
    whose words per entry, ceil(memory word width / bus data width), is
    above one and not a power of two, because the word-index bit count
    is an exact power-of-two logarithm; and every bridge that is
    constructed has a power-of-two number of words per entry. *)
Theorem make_requires_power_of_two :
  (forall m a ro ini b,
     let D := data_width
                match b with Some b => b | None => Interface_default end in
     let words_per_entry := (width m + D - 1) / D in
     1 < words_per_entry ->
     (forall k, 0 <= k -> words_per_entry <> 2 ^ k) ->
     make (inl m) a ro ini b = Raise ValueError) /\
  (forall mem_or_size a ro ini b c,
     make mem_or_size a ro ini b = Ok c ->
     csrw_per_memw c = (width (mem c) + flen_dat c - 1) / flen_dat c /\
     0 <= word_bits c /\ csrw_per_memw c = 2 ^ word_bits c).
Proof.
  split.
  - intros m a ro ini b D words_per_entry Hgt Hnp.
    unfold make. fold D. cbn [rbind].
    unfold floordiv at 1. destruct (Z.eqb_spec D 0) as [HD|HD].
    { subst words_per_entry. rewrite HD, Z.div_0_r in Hgt. lia. }
    cbn [rbind]. fold words_per_entry.
    now rewrite (log2_int_not_pow2 _ Hnp).
  - intros mem_or_size a ro ini b c H.
    apply make_Ok in H as (Hbus & _ & _ & Hcsrw & Hwb & _).
    apply log2_int_pow2 in Hwb. unfold flen_dat. rewrite Hbus. tauto.
Qed.

Lemma three_not_pow2 k : 0 <= k -> 3 <> 2 ^ k.
Proof.
  intros Hk H. destruct (Z.eq_dec k 0) as [->|]; [discriminate|].
  replace k with (Z.succ (k - 1)) in H by lia.
  rewrite Z.pow_succ_r in H by lia. lia.
Qed.

Lemma make_requires_power_of_two_witness :
  make (inl mem24) 0 None [] None = Raise ValueError.
Proof.
  apply (proj1 make_requires_power_of_two mem24 0 None [] None).
  - reflexivity.
  - exact three_not_pow2.
Defined.

Lemma sram8x4_made : make (inl mem8x4) 1 None [] None = Ok sram8x4.
Proof. reflexivity. Qed.

Lemma adr_high_window n x :
  slice n x 9 n = trunc n x / 512.
Proof.
  rewrite slice_high, trunc_mod by lia.
  destruct (Z.le_gt_cases 9 n) as [Hn|Hn].
  - replace (clamp n 9) with 9 by (unfold clamp; lia). reflexivity.
  - replace (clamp n 9) with (Z.max 0 n) by (unfold clamp; lia).
    assert (H2 : 0 < 2 ^ Z.max 0 n) by (apply Z.pow_pos_nonneg; lia).
    assert (Hlt : 2 ^ Z.max 0 n <= 2 ^ 8) by (apply Z.pow_le_mono_r; lia).
    pose proof (Z.mod_pos_bound x _ H2) as Hb.
    rewrite !Z.div_small; [reflexivity | lia | lia].
Qed.

(** C2, as the code has it. The select of an SRAM bridge is true in a
    cycle exactly when the bits [9, end) of the presented address equal
    the assigned address: the window of a bridge is always 512
    addresses, whatever the word index bits and the depth. *)
Theorem sel_is_bits_9_up (c : t) (i : bus_in) :
  sel c i = true <-> trunc (flen_adr c) (adr i) / 512 = address c.
Proof. unfold sel. rewrite Z.eqb_eq, adr_high_window. reflexivity. Qed.

(** C2, as stated, fails: the bridge of [mem8x4] (no word index bits,
    depth 4) at address 1 is selected by the bus address 512, whose
    bits above position 0 + ceil(log2 4) = 2 are 128, not 1. *)
Lemma sel_not_above_entry_bits :
  ~ (sel sram8x4 (read_at 512) = true
     <-> Spec.sram_sel sram8x4 (read_at 512) = true).
Proof. intros [H _]. specialize (H eq_refl). discriminate H. Qed.

End SRAMFacts.

Module CSRBankFacts.
Import Bits Migen BitsFacts CSRBank Examples.

Lemma slice_low_trunc n x w :
  trunc w (slice n x 0 w) = slice n x 0 w.
Proof.
  apply trunc_small. pose proof (slice_range n x 0 w) as H.
  split; [lia|]. eapply Z.lt_le_trans; [apply H|].
  apply Z.pow_le_mono_r; [lia|]. unfold slice_len, clamp. lia.
Qed.

Lemma slice_low_mod n x w :
  0 <= w <= n -> slice n x 0 w = x mod 2 ^ w.
Proof.
  intros Hw. rewrite slice_div_mod.
  replace (clamp n 0) with 0 by (unfold clamp; lia).
  replace (slice_len n 0 w) with w by (unfold slice_len, clamp; lia).
  rewrite Z.pow_0_r, Z.div_1_r.
  replace (Z.max 0 n) with (w + (n - w)) by lia.
  rewrite Z.pow_add_r by lia.
  rewrite Z.rem_mul_r by (try apply Z.pow_pos_nonneg; lia).
  rewrite Z.mul_comm, Z.mod_add by (apply Z.pow_nonzero; lia).
  apply Z.mod_mod. apply Z.pow_nonzero; lia.
Qed.

(** C3, as the code has it. For every register bank with assigned
    address a, the select is (adr[9:] == a), a window of 512 addresses
    whatever the decode bits; for every simple register k, of width w,
    the write strobe is asserted in a cycle iff the select, the write
    enable and adr[:decode_bits] == k all hold, and the write value
    presented is dat_w[0:w], the write data truncated to w bits. *)
Theorem bank_decode (c : t) (k : nat) (csr : CSR) (i : bus_in) :
  simple_csrs c !! k = Some csr ->
  (sel c i = true <-> trunc (flen_adr c) (adr i) / 512 = address c) /\
  (re c k i = Some true <->
     sel c i = true /\ we i = true /\
     slice (flen_adr c) (adr i) 0 (decode_bits c) = Z.of_nat k) /\
  r c k i = Some (slice (flen_dat c) (dat_w i) 0 (csr_size csr)) /\
  (0 <= csr_size csr <= flen_dat c ->
   r c k i = Some (dat_w i mod 2 ^ csr_size csr)).
Proof.
  intros Hk. unfold re, r, adr_index. rewrite Hk.
  cbn [fmap option_fmap option_map]. rewrite slice_low_trunc.
  assert (Hsel : sel c i = true <->
                 trunc (flen_adr c) (adr i) / 512 = address c).
  { unfold sel. now rewrite Z.eqb_eq, SRAMFacts.adr_high_window. }
  split; [exact Hsel|]. split; [|split].
  - split.
    + intros [= H]. apply andb_prop in H as [H H3].
      apply andb_prop in H as [H1 H2]. now apply Z.eqb_eq in H3.
    + intros (H1 & H2 & H3). apply Z.eqb_eq in H3. now rewrite H1, H2, H3.
  - reflexivity.
  - intros Hw. now rewrite slice_low_mod.
Qed.

Lemma bank_decode_witness :
  (sel bank2 (write_at 1 7) = true <-> trunc 14 1 / 512 = 0) /\
  (re bank2 1 (write_at 1 7) = Some true <->
     sel bank2 (write_at 1 7) = true /\ true = true /\
     slice 14 1 0 1 = 1) /\
  r bank2 1 (write_at 1 7) = Some (slice 8 7 0 8) /\
  (0 <= 8 <= 8 -> r bank2 1 (write_at 1 7) = Some (7 mod 2 ^ 8)).
Proof.
  apply (bank_decode bank2 1 {| csr_name := "b"; csr_size := 8 |}
                     (write_at 1 7)).
  reflexivity.
Defined.

(** C3, as stated, fails: with the select taken from the bits above
    the decode bits, the bank [bank2] (one decode bit, address 0) would
    not answer the bus address 2; the code selects it, and the write
    strobe of its register 0 is asserted. *)
Lemma bank_sel_not_above_decode_bits :
  re bank2 0 (write_at 2 7) = Some true /\
  Spec.bank_sel bank2 (write_at 2 7) = false /\
  Spec.bank_re bank2 0 (write_at 2 7) = false.
Proof. repeat split. Qed.

End CSRBankFacts.

(** ** Reads: latency and the unselected responder *)

Module ReadFacts.
Import Bits Migen BitsFacts Examples.




Lemma port_adr_nonneg c i pv : 0 <= SRAM.port_adr c i pv.
Proof. apply trunc_nonneg. Qed.

(** One edge of the bridge, seen from the bus in the cycle after it. *)
Lemma sram_step_read c s i pv :
  SRAM.bus_dat_r c (SRAM.step c s i pv) =
  if SRAM.sel c i
  then SRAM.subword c (SRAM.adr_word c i)
         (default 0 (SRAM.storage (SRAM.step c s i pv)
                       !! Z.to_nat (SRAM.port_adr c i pv)))
  else 0.
Proof.
  unfold SRAM.bus_dat_r, SRAM.subword, SRAM.port_dat_r.
  cbn [SRAM.step SRAM.sel_r SRAM.word_index SRAM.memadr].
  destruct (negb (SRAM.word_bits c =? 0)); destruct (SRAM.sel c i); reflexivity.
Qed.

Lemma bank_step_read c s i w :
  CSRBank.dat_r (CSRBank.step c s i w) =
  if CSRBank.sel c i
  then match CSRBank.readable c w (Z.to_nat (CSRBank.adr_index c i)) with
       | Some v => trunc (CSRBank.flen_dat c) v
       | None => 0
       end
  else 0.
Proof. reflexivity. Qed.

(** C8. A responder that is not selected in a cycle contributes a
    read_data of all zeros in the following cycle: the register bank
    clears read_data at each edge and overwrites it only when selected,
    and the SRAM bridge drives read_data only under its select delayed
    by one cycle. *)
Theorem unselected_reads_zero :
  (forall (c : CSRBank.t) s i w,
     CSRBank.sel c i = false ->
     CSRBank.dat_r (CSRBank.step c s i w) = 0) /\
  (forall (c : SRAM.t) s i pv,
     SRAM.sel c i = false ->
     SRAM.sel_r (SRAM.step c s i pv) = false /\
     SRAM.bus_dat_r c (SRAM.step c s i pv) = 0) /\
  (forall (c : SRAM.t) s, SRAM.sel_r s = false -> SRAM.bus_dat_r c s = 0).
Proof.
  split; [|split].
  - intros c s i w H. now rewrite bank_step_read, H.
  - intros c s i pv H. split; [exact H|]. now rewrite sram_step_read, H.
  - intros c s H. unfold SRAM.bus_dat_r. rewrite H. now destruct (negb _).
Qed.

Lemma unselected_reads_zero_witness :
  CSRBank.dat_r (CSRBank.step bank2 {| CSRBank.dat_r := 9 |}
                               (read_at 512) [5; 6]) = 0 /\
  SRAM.bus_dat_r sram8x4
    (SRAM.step sram8x4 (SRAM.reset sram8x4) (read_at 0) 0) = 0.
Proof.
  split.
  - apply (proj1 unselected_reads_zero bank2 _ (read_at 512) [5; 6]).
    reflexivity.
  - apply (proj1 (proj2 unselected_reads_zero) sram8x4 _ (read_at 0) 0).
    reflexivity.
Defined.




(** Cycles in which the port does not write leave the memory as it
    is. *)
Lemma sram_run_storage c l : forall s,
  (forall x, x ∈ l -> SRAM.port_we c x.1 = false) ->
  SRAM.storage (SRAM.run c s l) = SRAM.storage s.
Proof.
  induction l as [|x l IH]; intros s Hl; [reflexivity|].
  change (SRAM.run c s (x :: l)) with (SRAM.run c (SRAM.step c s x.1 x.2) l).
  rewrite IH by (intros y Hy; apply Hl; now right).
  cbn [SRAM.step SRAM.storage]. rewrite Hl by now left. reflexivity.
Qed.





End ReadFacts.

(** ** The write path and the addressing of the bridge *)

Module WriteFacts.
Import Bits Migen BitsFacts MigenFacts SRAM SRAMFacts Examples.

(** A chunk below a shifted value: the [Z.lor] of [Cat] is a sum. *)
Lemma lor_shiftl_add a b w :
  0 <= w -> 0 <= a < 2 ^ w -> Z.lor a (Z.shiftl b w) = a + b * 2 ^ w.
Proof.
  intros Hw Ha.
  assert (Hland : Z.land a (Z.shiftl b w) = 0).
  { apply Z.bits_inj'. intros n Hn. rewrite Z.land_spec, Z.bits_0.
    destruct (Z.lt_ge_cases n w) as [Hlt|Hge].
    - rewrite Z.shiftl_spec_low by lia. apply andb_false_r.
    - rewrite <- (Z.mod_small a (2 ^ w)) by lia.
      rewrite Z.mod_pow2_bits_high by lia. reflexivity. }
  rewrite <- Z.lxor_lor, <- Z.add_nocarry_lxor by exact Hland.
  rewrite Z.shiftl_mul_pow2 by lia. reflexivity.
Qed.

Lemma Cat_cons w v rest :
  Cat ((w, v) :: rest) = trunc w v + Cat rest * 2 ^ Z.max 0 w.
Proof. cbn [Cat]. apply lor_shiftl_add; [lia | apply trunc_range]. Qed.

Lemma log2_int_log2_up n : log2_int n false = Ok (Z.log2_up n).
Proof.
  unfold log2_int. pose proof (log2_int_loop_pow2 n) as H.
  destruct (log2_int_loop (Z.to_nat n) n 1 0) as [l r]. cbn [andb].
  destruct H as (Hr & -> & Hle & Hlt). f_equal.
  destruct (Z.eq_dec r 0) as [->|Hr0].
  - symmetry. apply Z.log2_up_eqn0. cbn in Hle. lia.
  - symmetry. apply Z.log2_up_unique; [lia|]. split; [|exact Hle].
    specialize (Hlt ltac:(lia)).
    replace r with (Z.succ (Z.pred r)) in Hlt by lia.
    rewrite Z.pow_succ_r in Hlt by lia. lia.
Qed.

(** A bridge of more than one word per entry has word index bits. *)
Lemma word_bits_pos mem_or_size a ro ini b c :
  make mem_or_size a ro ini b = Ok c ->
  1 < csrw_per_memw c -> (word_bits c =? 0) = false.
Proof.
  intros H Hgt. apply make_word_bits in H as (Hwb & Hpow).
  apply Z.eqb_neq. intros H0. rewrite H0 in Hpow. cbn in Hpow. lia.
Qed.

(** C4. For every writable bridge of more than one word per entry, the
    memory write enable is asserted only in (and in all) cycles where
    the select, the write enable and adr[:word_bits] == words per
    entry - 1 hold; the word written then, at the decoded address, is
    the concatenation of the incoming write data, as the least
    significant chunk, with the holding registers in reversed order,
    as the [mem.width]-bit port takes it; and cycles among which none
    is a selected write to the final index leave the contents of the
    memory unchanged. *)
Theorem write_on_final_subword mem_or_size a ro ini b c :
  make mem_or_size a ro ini b = Ok c ->
  read_only c = false ->
  1 < csrw_per_memw c ->
  (forall i, port_we c i = true <->
     sel c i = true /\ we i = true /\
     adr_word c i = csrw_per_memw c - 1) /\
  (forall s i pv, port_we c i = true ->
     storage (step c s i pv) =
     <[Z.to_nat (port_adr c i pv) :=
         trunc (width (mem c))
           (Cat ((flen_dat c, dat_w i)
                 :: ((fun v => (flen_dat c, v)) <$> reverse (wregs s))))]>
       (storage s)) /\
  (forall s i pv, port_we c i = false ->
     storage (step c s i pv) = storage s) /\
  (forall s cycles,
     (forall x, x ∈ cycles ->
        sel c x.1 = true -> we x.1 = true ->
        adr_word c x.1 <> csrw_per_memw c - 1) ->
     storage (run c s cycles) = storage s).
Proof.
  intros Hmake Hro Hgt.
  pose proof (word_bits_pos _ _ _ _ _ _ Hmake Hgt) as Hwb.
  assert (Hwe : forall i, port_we c i = true <->
            sel c i = true /\ we i = true /\
            adr_word c i = csrw_per_memw c - 1).
  { intros i. unfold port_we. rewrite Hro, Hwb. cbn [negb].
    rewrite !andb_true_iff, Z.eqb_eq. tauto. }
  split; [exact Hwe|]. split; [|split].
  - intros s i pv H. cbn [step storage]. rewrite H.
    unfold port_dat_w, memword_chunks. rewrite Hwb. reflexivity.
  - intros s i pv H. cbn [step storage]. now rewrite H.
  - intros s cycles H. apply ReadFacts.sram_run_storage.
    intros x Hx. destruct (port_we c x.1) eqn:E; [|reflexivity].
    apply Hwe in E as (H1 & H2 & H3). now destruct (H x Hx H1 H2).
Qed.

Lemma sram32x16_made : make (inl mem32x16) 3 None [] None = Ok sram32x16.
Proof. reflexivity. Qed.

Lemma sram32x256_made : make (inl mem32x256) 2 None [] None = Ok sram32x256.
Proof. reflexivity. Qed.

Lemma write_on_final_subword_witness :
  storage (run sram32x16 (reset sram32x16)
             [(write_at 1556 0x11, 0); (write_at 1557 0x22, 0);
              (write_at 1558 0x33, 0)])
  = storage (reset sram32x16).
Proof.
  apply (write_on_final_subword (inl mem32x16) 3 None [] None sram32x16).
  - reflexivity.
  - reflexivity.
  - reflexivity.
  - apply (proj1 (Forall_forall
             (fun x : bus_in * Z =>
                sel sram32x16 x.1 = true -> we x.1 = true ->
                adr_word sram32x16 x.1 <> csrw_per_memw sram32x16 - 1) _)).
    repeat constructor; intros _ _; discriminate.
Defined.

(** C6, as the code has it. For every bridge with page bits (the page bits are
    ceil(log2(ceil(depth * words per entry / 512)))), a page register
    of that width exists and is what get_csrs returns; the address
    presented to the memory is the concatenation of the page register,
    most significant, with adr[word_bits : word_bits + port address
    width - page bits]; and, the page bits fitting in the port address,
    two accesses with the same bus address and different contents of
    the page register present different addresses to the memory. *)
Theorem paged_port_adr mem_or_size a ro ini b c :
  make mem_or_size a ro ini b = Ok c ->
  page_bits c <> 0 ->
  let n := flen_port_adr (mem c) in
  let wb := word_bits c in
  let pb := page_bits c in
  let stop := wb + n - pb in
  pb = Z.log2_up ((depth (mem c) * csrw_per_memw c + 511) / 512) /\
  get_csrs c = [ {| csr_name := name_override (mem c) +:+ "_page";
                    csr_size := pb |} ] /\
  (forall i pv,
     port_adr c i pv =
     trunc n (Cat [(slice_len (flen_adr c) wb stop,
                    slice (flen_adr c) (adr i) wb stop);
                   (pb, pv)])) /\
  (pb <= n ->
   (forall i pv,
      port_adr c i pv =
      slice (flen_adr c) (adr i) wb stop
      + trunc pb pv * 2 ^ slice_len (flen_adr c) wb stop) /\
   (forall i pv1 pv2,
      trunc pb pv1 <> trunc pb pv2 ->
      port_adr c i pv1 <> port_adr c i pv2)).
Proof.
  intros Hmake Hpb n wb pb stop.
  apply make_Ok in Hmake as (_ & _ & _ & _ & _ & Hlog & Hpage & _).
  rewrite log2_int_log2_up in Hlog. injection Hlog as Hlog.
  apply Z.eqb_neq in Hpb. rewrite Hpb in Hpage.
  assert (Hadr : forall i pv,
     port_adr c i pv =
     trunc n (Cat [(slice_len (flen_adr c) wb stop,
                    slice (flen_adr c) (adr i) wb stop);
                   (pb, pv)])).
  { intros i pv. unfold port_adr. rewrite Hpage. reflexivity. }
  split; [now symmetry|]. split; [unfold get_csrs; now rewrite Hpage|].
  split; [exact Hadr|]. intros Hfit.
  assert (Hpos : 0 <= pb) by (subst pb; rewrite <- Hlog; apply Z.log2_up_nonneg).
  set (L := slice_len (flen_adr c) wb stop) in *.
  assert (HL : 0 <= L <= n - pb) by (subst L stop; unfold slice_len, clamp; lia).
  assert (Hsum : forall i pv,
     port_adr c i pv =
     slice (flen_adr c) (adr i) wb stop + trunc pb pv * 2 ^ L).
  { intros i pv. rewrite Hadr, !Cat_cons. cbn [Cat].
    pose proof (slice_range (flen_adr c) (adr i) wb stop) as Hs. fold L in Hs.
    pose proof (trunc_range pb pv) as Hp.
    rewrite (trunc_small L) by (replace (Z.max 0 L) with L by lia; exact Hs).
    replace (Z.max 0 pb) with pb in * by lia.
    replace (Z.max 0 L) with L by lia.
    rewrite Z.mul_0_l, Z.add_0_r.
    apply trunc_small. replace (Z.max 0 n) with (L + pb + (n - pb - L)) by lia.
    rewrite !Z.pow_add_r by lia.
    assert (0 < 2 ^ L) by (apply Z.pow_pos_nonneg; lia).
    assert (0 < 2 ^ (n - pb - L)) by (apply Z.pow_pos_nonneg; lia).
    assert (0 < 2 ^ pb) by (apply Z.pow_pos_nonneg; lia).
    assert (trunc pb pv * 2 ^ L <= (2 ^ pb - 1) * 2 ^ L)
      by (apply Z.mul_le_mono_nonneg_r; lia).
    assert (2 ^ L * 2 ^ pb * 1 <= 2 ^ L * 2 ^ pb * 2 ^ (n - pb - L))
      by (apply Z.mul_le_mono_nonneg_l; nia).
    nia. }
  split; [exact Hsum|].
  intros i pv1 pv2 Hne. rewrite !Hsum. intros Heq. apply Hne.
  assert (0 < 2 ^ L) by (apply Z.pow_pos_nonneg; lia). nia.
Qed.

Lemma paged_port_adr_witness :
  port_adr sram32x256 (read_at 1044) 0 = 5 /\
  port_adr sram32x256 (read_at 1044) 1 = 133 /\
  port_adr sram32x256 (read_at 1044) 0 <> port_adr sram32x256 (read_at 1044) 1.
Proof.
  split; [reflexivity|]. split; [reflexivity|].
  apply (proj2 (proj2 (proj2 (proj2
           (paged_port_adr (inl mem32x256) 2 None [] None sram32x256
                           eq_refl ltac:(discriminate)))) ltac:(discriminate))).
  discriminate.
Defined.

(** C6, as stated, fails: the bridge of [mem8192x2] has 2 page bits and
    a port address of 1 bit, so the page register does not fit in the
    address of the memory: with the same bus address, the page contents 0
    and 2 both present the address 0. *)
Lemma page_bits_beyond_port_adr :
  make (inl mem8192x2) 0 None [] None = Ok sram8192x2 /\
  page_bits sram8192x2 = 2 /\
  flen_port_adr (mem sram8192x2) = 1 /\
  trunc 2 0 <> trunc 2 2 /\
  port_adr sram8192x2 (read_at 0) 0 = port_adr sram8192x2 (read_at 0) 2.
Proof.
  split; [vm_compute; reflexivity|]. split; [reflexivity|].
  split; [reflexivity|]. split; [discriminate | reflexivity].
Qed.

(** *** A 32-bit memory on a bus of 8 bits *)

Section Word32.
Variable c : t.
Hypothesis Hcsrw : csrw_per_memw c = 4.
Hypothesis Hwb : word_bits c = 2.
Hypothesis Hdat : flen_dat c = 8.
Hypothesis Hwidth : width (mem c) = 32.
Hypothesis Hro : read_only c = false.

Variables pv e : Z.

Lemma step_read32 s k a :
  targets c pv e k a ->
  step c s (read_at a) pv =
  {| sel_r := true; word_index := k;
     wregs := [default 0 (wregs s !! 0%nat);
               default 0 (wregs s !! 1%nat);
               default 0 (wregs s !! 2%nat)];
     storage := storage s; memadr := e |}.
Proof.
  intros (Hsel & Hk & He). unfold step, port_we, wreg_next.
  rewrite Hsel, Hk, He, Hwb, Hcsrw, Hro. reflexivity.
Qed.

Lemma step_write32_low s k a d :
  targets c pv e k a -> 0 <= k < 3 ->
  step c s (write_at a d) pv =
  {| sel_r := true; word_index := k;
     wregs := [if k =? 0 then trunc 8 d else default 0 (wregs s !! 0%nat);
               if k =? 1 then trunc 8 d else default 0 (wregs s !! 1%nat);
               if k =? 2 then trunc 8 d else default 0 (wregs s !! 2%nat)];
     storage := storage s; memadr := e |}.
Proof.
  intros (Hsel & Hk & He) Hlt. unfold step, port_we, wreg_next.
  change (sel c (write_at a d)) with (sel c (read_at a)).
  change (adr_word c (write_at a d)) with (adr_word c (read_at a)).
  change (port_adr c (write_at a d) pv) with (port_adr c (read_at a) pv).
  rewrite Hsel, Hk, He, Hwb, Hcsrw, Hro, Hdat.
  replace (k =? 4 - 1) with false by (symmetry; apply Z.eqb_neq; lia).
  reflexivity.
Qed.

Lemma step_write32_last s a d :
  targets c pv e 3 a ->
  step c s (write_at a d) pv =
  {| sel_r := true; word_index := 3;
     wregs := [default 0 (wregs s !! 0%nat);
               default 0 (wregs s !! 1%nat);
               default 0 (wregs s !! 2%nat)];
     storage :=
       <[Z.to_nat e :=
           trunc 32 (Cat ((8, d) :: ((fun v => (8, v)) <$> reverse (wregs s))))]>
         (storage s);
     memadr := e |}.
Proof.
  intros (Hsel & Hk & He). unfold step, port_we, port_dat_w, memword_chunks, wreg_next.
  change (sel c (write_at a d)) with (sel c (read_at a)).
  change (adr_word c (write_at a d)) with (adr_word c (read_at a)).
  change (port_adr c (write_at a d) pv) with (port_adr c (read_at a) pv).
  rewrite Hsel, Hk, He, Hwb, Hcsrw, Hro, Hdat, Hwidth. reflexivity.
Qed.

(** What the bus reads when the registered address is [e] and the
    word there is 0x11223344. *)
Lemma bus_dat_r32 k wr st :
  st !! Z.to_nat e = Some 0x11223344 ->
  bus_dat_r c {| sel_r := true; word_index := k; wregs := wr;
                 storage := st; memadr := e |} =
  chooser 32 0x11223344 k 8 4 true.
Proof.
  intros Hst. unfold bus_dat_r, port_dat_r.
  cbn [sel_r word_index storage memadr].
  rewrite Hst, Hwb, Hcsrw, Hdat. reflexivity.
Qed.

End Word32.

(** C1. For a writable bridge over a memory of word width 32 on a bus
    of data width 8: there are 4 words per entry and 2 word index bits,
    and for any entry e within the memory, the selected writes of the
    bytes 0x11, 0x22, 0x33, 0x44 to the sub-words 0, 1, 2, 3 of e leave
    the word 0x11223344 at index e of the memory (sub-word 0 in the
    most significant byte), and the reads of the sub-words 0..3 of e
    that follow return 0x11, 0x22, 0x33, 0x44 in that order. *)
Theorem write_read_round_trip m a ro ini b c s pv e a0 a1 a2 a3 :
  make (inl m) a ro ini b = Ok c ->
  width m = 32 ->
  flen_dat c = 8 ->
  read_only c = false ->
  0 <= e < Z.of_nat (length (storage s)) ->
  targets c pv e 0 a0 -> targets c pv e 1 a1 ->
  targets c pv e 2 a2 -> targets c pv e 3 a3 ->
  csrw_per_memw c = 4 /\ word_bits c = 2 /\
  let written :=
    (Initiator.run c pv s
       [Initiator.TWrite a0 0x11; Initiator.TWrite a1 0x22;
        Initiator.TWrite a2 0x33; Initiator.TWrite a3 0x44]).2 in
  let reads :=
    Initiator.run c pv written
      [Initiator.TRead a0; Initiator.TRead a1;
       Initiator.TRead a2; Initiator.TRead a3] in
  storage written !! Z.to_nat e = Some 0x11223344 /\
  reads.1 = [0x11; 0x22; 0x33; 0x44] /\
  storage reads.2 !! Z.to_nat e = Some 0x11223344.
Proof.
  intros Hmake Hw Hd Hro He T0 T1 T2 T3.
  pose proof (make_Ok _ _ _ _ _ _ Hmake) as (Hbus & _ & _ & Hcs & Hlog & _ & _ & Hmem).
  cbn in Hmem. unfold flen_dat in Hd. rewrite Hbus in Hd.
  rewrite Hmem, Hw, Hd in Hcs. change ((32 + 8 - 1) / 8) with 4 in Hcs.
  rewrite Hcs in Hlog. injection Hlog as Hwb. symmetry in Hwb.
  assert (Hdat : flen_dat c = 8) by (unfold flen_dat; now rewrite Hbus).
  assert (Hwidth : width (mem c) = 32) by now rewrite Hmem.
  split; [exact Hcs|]. split; [exact Hwb|].
  cbn [Initiator.run Initiator.perform snd fst].
  rewrite (step_write32_low c Hcs Hwb Hdat Hro pv e s 0 a0 0x11 T0) by lia.
  rewrite (step_write32_low c Hcs Hwb Hdat Hro pv e _ 1 a1 0x22 T1) by lia.
  rewrite (step_write32_low c Hcs Hwb Hdat Hro pv e _ 2 a2 0x33 T2) by lia.
  rewrite (step_write32_last c Hcs Hwb Hdat Hwidth Hro pv e _ a3 0x44 T3).
  cbn [wregs storage lookup list_lookup Z.eqb].
  change (trunc 32 (Cat _)) with 0x11223344.
  assert (Hst : <[Z.to_nat e := 0x11223344]> (storage s) !! Z.to_nat e
                = Some 0x11223344)
    by (apply list_lookup_insert_eq; lia).
  rewrite !(step_read32 c Hcs Hwb Hro pv e _ 0 a0 T0).
  rewrite !(step_read32 c Hcs Hwb Hro pv e _ 1 a1 T1).
  rewrite !(step_read32 c Hcs Hwb Hro pv e _ 2 a2 T2).
  rewrite !(step_read32 c Hcs Hwb Hro pv e _ 3 a3 T3).
  cbn [storage].
  rewrite !(bus_dat_r32 c Hcs Hwb Hdat e _ _ _ Hst).
  split; [exact Hst|]. split; [reflexivity | exact Hst].
Qed.

Lemma write_read_round_trip_witness :
  let written :=
    (Initiator.run sram32x16 0 (reset sram32x16)
       [Initiator.TWrite 1556 0x11; Initiator.TWrite 1557 0x22;
        Initiator.TWrite 1558 0x33; Initiator.TWrite 1559 0x44]).2 in
  let reads :=
    Initiator.run sram32x16 0 written
      [Initiator.TRead 1556; Initiator.TRead 1557;
       Initiator.TRead 1558; Initiator.TRead 1559] in
  storage written !! Z.to_nat 5 = Some 0x11223344 /\
  reads.1 = [0x11; 0x22; 0x33; 0x44] /\
  storage reads.2 !! Z.to_nat 5 = Some 0x11223344.
Proof.
  apply (write_read_round_trip mem32x16 3 None [] None sram32x16
           (reset sram32x16) 0 5 1556 1557 1558 1559).
  - reflexivity.
  - reflexivity.
  - reflexivity.
  - reflexivity.
  - change (0 <= 5 < 16). lia.
  - repeat split.
  - repeat split.
  - repeat split.
  - repeat split.
Defined.

End WriteFacts.

(** ** The scan of the bank array *)

Module ScanFacts.
Import CSRBankArray.

Section Scan.
Context {St : Type}.
Variable address_map : string -> option Memory -> St -> option Z * St.
Variable ifargs : Interface.

Local Abbreviation scan_memories :=
  (CSRBankArray.scan_memories address_map ifargs).
Local Abbreviation memories_of :=
  (CSRBankArray.memories_of address_map ifargs).
Local Abbreviation scan_obj := (CSRBankArray.scan_obj address_map ifargs).
Local Abbreviation scan_objs := (CSRBankArray.scan_objs address_map ifargs).
Local Abbreviation scan := (CSRBankArray.scan address_map ifargs).





(** *** The loops, statement by statement *)

Lemma scan_memories_cons name memory rest csrs s :
  scan_memories name (memory :: rest) csrs s =
  match address_map name (Some memory) s.2 with
  | (None, st) => scan_memories name rest csrs (s.1, st)
  | (Some mapaddr, st) =>
      match SRAM.make (inl memory) mapaddr None [] (Some ifargs) with
      | Ok mmap =>
          scan_memories name rest csrs
            ((append_sram (name, memory, mapaddr, mmap)
                (add_submodule (Sub_mmap mmap) s.1.1),
              alter (fun old => old ++ SRAM.get_csrs mmap) csrs s.1.2), st)
      | Raise e => (Raise e, (s.1, st))
      end
  end.
Proof.
  cbn [CSRBankArray.scan_memories]. unfold bind at 1, call_address_map.
  destruct (address_map name (Some memory) s.2) as [[mapaddr|] st];
    [|reflexivity].
  unfold bind, lift, modify, extend.
  destruct (SRAM.make _ _ _ _ _); reflexivity.
Qed.

Lemma memories_of_unfold name obj s :
  memories_of name obj s =
  match own_csrs obj s with
  | (Ok csrs, s0) =>
      match get_memories obj with
      | Some memories =>
          match scan_memories name memories csrs s0 with
          | (Ok _, s1) => (Ok csrs, s1)
          | (Raise e, s1) => (Raise e, s1)
          end
      | None => (Ok csrs, s0)
      end
  | (Raise e, s0) => (Raise e, s0)
  end.
Proof.
  unfold CSRBankArray.memories_of. unfold bind at 1.
  destruct (own_csrs obj s) as [[csrs|e] s0]; [|reflexivity].
  unfold bind, ret. destruct (get_memories obj); [|reflexivity].
  destruct (scan_memories name l csrs s0) as [[[]|e] s1]; reflexivity.
Qed.

Lemma scan_obj_unfold name obj s :
  scan_obj name obj s =
  match memories_of name obj s with
  | (Raise e, s1) => (Raise e, s1)
  | (Ok csrs, s1) =>
      match default [] (s1.1.2 !! csrs) with
      | [] => (Ok tt, s1)
      | x :: l =>
          match address_map name None s1.2 with
          | (None, st) => (Ok tt, (s1.1, st))
          | (Some mapaddr, st) =>
              let rmap := CSRBank.make (x :: l) mapaddr (Some ifargs) in
              (Ok tt, ((append_bank (name, csrs, mapaddr, rmap)
                          (add_submodule (Sub_rmap rmap) s1.1.1), s1.1.2), st))
          end
      end
  end.
Proof.
  unfold CSRBankArray.scan_obj. unfold bind at 1.
  destruct (memories_of name obj s) as [[csrs|e] s1]; [|reflexivity].
  unfold bind at 1, contents.
  destruct (default [] (s1.1.2 !! csrs)) as [|x l]; [reflexivity|].
  unfold bind, call_address_map.
  destruct (address_map name None s1.2) as [[mapaddr|] st]; reflexivity.
Qed.

Lemma scan_objs_cons name obj rest s :
  scan_objs ((name, obj) :: rest) s =
  match scan_obj name obj s with
  | (Ok _, s1) => scan_objs rest s1
  | (Raise e, s1) => (Raise e, s1)
  end.
Proof. reflexivity. Qed.

(** The scan never touches [self.source]. *)
Lemma scan_memories_source name memories : forall csrs s,
  source (scan_memories name memories csrs s).2.1.1 = source s.1.1.
Proof.
  induction memories as [|memory rest IH]; intros csrs s; [reflexivity|].
  rewrite scan_memories_cons.
  destruct (address_map name (Some memory) s.2) as [[mapaddr|] st];
    [|now rewrite IH].
  destruct (SRAM.make _ _ _ _ _); [|reflexivity]. now rewrite IH.
Qed.

Lemma own_csrs_source obj (s : (t * store) * St) :
  source (own_csrs obj s).2.1.1 = source s.1.1.
Proof.
  unfold own_csrs. destruct (get_csrs obj) as [[l|r]|]; reflexivity.
Qed.

Lemma memories_of_source name obj s :
  source (memories_of name obj s).2.1.1 = source s.1.1.
Proof.
  rewrite memories_of_unfold. pose proof (own_csrs_source obj s) as H0.
  destruct (own_csrs obj s) as [[csrs|e] s0]; [|exact H0].
  destruct (get_memories obj) as [memories|]; [|exact H0].
  pose proof (scan_memories_source name memories csrs s0) as H1.
  destruct (scan_memories name memories csrs s0) as [[[]|e] s1];
    cbn [fst snd] in *; congruence.
Qed.

Lemma scan_obj_source name obj s :
  source (scan_obj name obj s).2.1.1 = source s.1.1.
Proof.
  rewrite scan_obj_unfold. pose proof (memories_of_source name obj s) as Hm.
  destruct (memories_of name obj s) as [[csrs|e] s1]; [|exact Hm].
  destruct (default [] (s1.1.2 !! csrs)) as [|x l]; [exact Hm|].
  destruct (address_map name None s1.2) as [[mapaddr|] st]; exact Hm.
Qed.

Lemma scan_objs_source objs : forall s,
  source (scan_objs objs s).2.1.1 = source s.1.1.
Proof.
  induction objs as [|[name obj] rest IH]; intros s; [reflexivity|].
  rewrite scan_objs_cons. pose proof (scan_obj_source name obj s) as H.
  destruct (scan_obj name obj s) as [[[]|e] s1]; [|exact H].
  now rewrite IH.
Qed.

Lemma scan_source s : source (scan s).2.1.1 = source s.1.1.
Proof.
  unfold CSRBankArray.scan, bind, modify. cbn [fst snd].
  now rewrite scan_objs_source.
Qed.

(** *** A stateless address_map *)

Hypothesis Hstateless : stateless address_map.

(** Two runs of the loop over the memories, on arrays with the same
    banks and bridges and on lists with the same elements, end alike. *)
Lemma scan_memories_same name memories : forall r r' s s',
  same_maps s s' ->
  s.1.2 !! r = s'.1.2 !! r' ->
  (scan_memories name memories r s).1 = (scan_memories name memories r' s').1 /\
  same_maps (scan_memories name memories r s).2
            (scan_memories name memories r' s').2 /\
  (scan_memories name memories r s).2.1.2 !! r
  = (scan_memories name memories r' s').2.1.2 !! r'.
Proof.
  destruct Hstateless as [f Hf].
  induction memories as [|memory rest IH]; intros r r' s s' Hs Hr.
  - split; [reflexivity|]. split; [exact Hs | exact Hr].
  - rewrite !scan_memories_cons.
    pose proof (Hf name (Some memory) s.2) as H1.
    pose proof (Hf name (Some memory) s'.2) as H2.
    destruct (address_map name (Some memory) s.2) as [o st1].
    destruct (address_map name (Some memory) s'.2) as [o' st1'].
    cbn [fst] in H1, H2. subst o o'.
    destruct (f name (Some memory)) as [mapaddr|]; [|now apply IH].
    destruct (SRAM.make (inl memory) mapaddr None [] (Some ifargs))
      as [mmap|e]; [|split; [reflexivity|]; split; [exact Hs | exact Hr]].
    apply IH.
    + destruct Hs as [Hb Hm]. split; cbn; [exact Hb | now rewrite Hm].
    + cbn [fst snd]. rewrite !list_lookup_alter_eq. now rewrite Hr.
Qed.

Lemma memories_of_same name obj s s' :
  makes_new_list obj ->
  same_maps s s' ->
  match (memories_of name obj s).1, (memories_of name obj s').1 with
  | Ok r, Ok r' =>
      (memories_of name obj s).2.1.2 !! r
      = (memories_of name obj s').2.1.2 !! r'
  | Raise e, Raise e' => e = e'
  | _, _ => False
  end /\
  same_maps (memories_of name obj s).2 (memories_of name obj s').2.
Proof.
  intros Hnew Hs. rewrite !memories_of_unfold.
  assert (H0 : exists l,
    own_csrs obj s = (Ok (length s.1.2), ((s.1.1, s.1.2 ++ [l]), s.2)) /\
    own_csrs obj s' = (Ok (length s'.1.2), ((s'.1.1, s'.1.2 ++ [l]), s'.2))).
  { unfold own_csrs, makes_new_list in *.
    destruct (get_csrs obj) as [[l|r]|]; [|contradiction|];
      eexists; split; reflexivity. }
  destruct H0 as (l & -> & ->).
  assert (Hl : forall h : store, (h ++ [l]) !! length h = Some l)
    by (intros h; now apply list_lookup_middle).
  destruct (get_memories obj) as [memories|].
  - destruct (scan_memories_same name memories (length s.1.2) (length s'.1.2)
                ((s.1.1, s.1.2 ++ [l]), s.2) ((s'.1.1, s'.1.2 ++ [l]), s'.2))
      as (Hr & Hm & Hc).
    + exact Hs.
    + cbn [fst snd]. now rewrite !Hl.
    + destruct (scan_memories name memories (length s.1.2) _) as [r1 s1].
      destruct (scan_memories name memories (length s'.1.2) _) as [r1' s1'].
      cbn [fst snd] in Hr, Hm, Hc. subst r1'.
      destruct r1 as [[]|e]; cbn [fst snd]; now split.
  - cbn [fst snd]. split; [now rewrite !Hl | exact Hs].
Qed.

Lemma scan_obj_same name obj s s' :
  makes_new_list obj ->
  same_maps s s' ->
  (scan_obj name obj s).1 = (scan_obj name obj s').1 /\
  same_maps (scan_obj name obj s).2 (scan_obj name obj s').2.
Proof.
  intros Hnew Hs. rewrite !scan_obj_unfold.
  destruct (memories_of_same name obj s s' Hnew Hs) as [Hr Hs1].
  destruct (memories_of name obj s) as [r1 s1].
  destruct (memories_of name obj s') as [r1' s1'].
  cbn [fst snd] in Hr, Hs1.
  destruct r1 as [r|e], r1' as [r'|e']; try contradiction;
    [|subst e'; now split].
  rewrite <- Hr.
  destruct (default [] (s1.1.2 !! r)) as [|x l]; [now split|].
  destruct Hstateless as [f Hf].
  pose proof (Hf name None s1.2) as H1.
  pose proof (Hf name None s1'.2) as H2.
  destruct (address_map name None s1.2) as [o st1].
  destruct (address_map name None s1'.2) as [o' st1'].
  cbn [fst] in H1, H2. subst o o'.
  destruct Hs1 as [Hb Hm].
  destruct (f name None) as [mapaddr|]; (split; [reflexivity|]);
    split; cbn; try assumption.
  rewrite !fmap_app. now rewrite Hb.
Qed.

Lemma scan_objs_same objs : forall s s',
  new_lists objs ->
  same_maps s s' ->
  (scan_objs objs s).1 = (scan_objs objs s').1 /\
  same_maps (scan_objs objs s).2 (scan_objs objs s').2.
Proof.
  induction objs as [|[name obj] rest IH]; intros s s' Hnew Hs; [now split|].
  rewrite !scan_objs_cons.
  apply Forall_cons in Hnew as [Hobj Hrest].
  destruct (scan_obj_same name obj s s' Hobj Hs) as [Hr Hs1].
  destruct (scan_obj name obj s) as [r1 s1].
  destruct (scan_obj name obj s') as [r1' s1'].
  cbn [fst snd] in Hr, Hs1. subst r1'.
  destruct r1 as [[]|e]; [now apply IH | now split].
Qed.

(** With a stateless address_map and children that make their lists
    anew, the outcome of a scan, its banks and its bridges are those of
    the source alone. *)
Lemma scan_same s s' :
  source s.1.1 = source s'.1.1 ->
  new_lists (source s.1.1) ->
  (scan s).1 = (scan s').1 /\ same_maps (scan s).2 (scan s').2.
Proof.
  intros Hsrc Hnew. unfold CSRBankArray.scan, bind, modify.
  cbn [fst snd clear source].
  rewrite <- Hsrc. apply scan_objs_same; [exact Hnew | now split].
Qed.

Lemma same_maps_queries (s s' : (t * store) * St) :
  same_maps s s' ->
  bank_addresses s.1.1 = bank_addresses s'.1.1 /\
  sram_addresses s.1.1 = sram_addresses s'.1.1 /\
  get_rmaps s.1.1 = get_rmaps s'.1.1 /\
  get_mmaps s.1.1 = get_mmaps s'.1.1 /\
  get_buses s.1.1 = get_buses s'.1.1.
Proof.
  intros [Hb Hm].
  assert (Ha : bank_addresses s.1.1 = bank_addresses s'.1.1).
  { unfold bank_addresses.
    change (fun x : string * nat * Z * CSRBank.t => (x.1.1.1, x.1.2))
      with ((fun k : string * Z * CSRBank.t => (k.1.1, k.1.2)) ∘ bank_key).
    now rewrite !list_fmap_compose, Hb. }
  assert (Hr : get_rmaps s.1.1 = get_rmaps s'.1.1).
  { unfold get_rmaps.
    change (fun x : string * nat * Z * CSRBank.t => x.2)
      with ((fun k : string * Z * CSRBank.t => k.2) ∘ bank_key).
    now rewrite !list_fmap_compose, Hb. }
  unfold get_buses, sram_addresses, get_mmaps in *.
  rewrite Hm. rewrite Hr. repeat split; assumption.
Qed.

(** C9, as the code has it.  For every
    source whose children return a list of their own at each get_csrs
    and every address_map that is a stateless function of (name,
    memory), a second scan over the same source produces the same
    (name, assigned address) pairs for the register banks and for the
    memory bridges as the first, and its banks, bridges and buses are
    those of the second scan alone: what an earlier scan left in the
    array, in the store and in the state of address_map has no part in
    them. *)
Theorem scan_twice_same_addresses (a : t * store) (st : St) :
  new_lists (source a.1) ->
  let first := scan (a, st) in
  let second := scan first.2 in
  second.1 = first.1 /\
  bank_addresses second.2.1.1 = bank_addresses first.2.1.1 /\
  sram_addresses second.2.1.1 = sram_addresses first.2.1.1 /\
  get_rmaps second.2.1.1 = get_rmaps first.2.1.1 /\
  get_mmaps second.2.1.1 = get_mmaps first.2.1.1 /\
  get_buses second.2.1.1 = get_buses first.2.1.1 /\
  (forall a' st',
     source a'.1 = source a.1 ->
     (scan (a', st')).1 = second.1 /\
     bank_addresses (scan (a', st')).2.1.1 = bank_addresses second.2.1.1 /\
     get_rmaps (scan (a', st')).2.1.1 = get_rmaps second.2.1.1 /\
     srams (scan (a', st')).2.1.1 = srams second.2.1.1).
Proof.
  intros Hnew first second.
  assert (Hsrc : source first.2.1.1 = source a.1) by apply scan_source.
  assert (Hnew1 : new_lists (source first.2.1.1)) by now rewrite Hsrc.
  destruct (scan_same first.2 (a, st) Hsrc Hnew1) as [Hr Hs].
  fold second first in Hr, Hs.
  destruct (same_maps_queries _ _ Hs) as (H1 & H2 & H3 & H4 & H5).
  repeat (split; [assumption|]).
  intros a' st' Ha'.
  assert (Hnew' : new_lists (source (a', st').1.1)) by (cbn; now rewrite Ha').
  destruct (scan_same (a', st') (a, st) Ha' Hnew') as [Hr' Hs'].
  fold first in Hr', Hs'.
  destruct (same_maps_queries _ _ Hs') as (H1' & _ & H3' & _ & _).
  destruct Hs' as [_ Hm']. destruct Hs as [_ Hm].
  repeat split; congruence.
Qed.

End Scan.

Import Examples.


Lemma fixed_map_stateless : stateless fixed_map.
Proof.
  exists (fun name memory => (fixed_map name memory tt).1).
  intros name memory []. reflexivity.
Qed.

Lemma source3_new_lists : new_lists source3.
Proof. repeat constructor. Qed.

Lemma scan_twice_same_addresses_witness :
  let first := scan fixed_map Interface_default ((array3, []), tt) in
  let second := scan fixed_map Interface_default first.2 in
  bank_addresses first.2.1.1 = [("a", 1); ("c", 1)] /\
  sram_addresses first.2.1.1 = [("c", 17)] /\
  bank_addresses second.2.1.1 = bank_addresses first.2.1.1 /\
  sram_addresses second.2.1.1 = sram_addresses first.2.1.1.
Proof.
  intros first second.
  split; [reflexivity|]. split; [reflexivity|].
  destruct (scan_twice_same_addresses fixed_map Interface_default
              fixed_map_stateless (array3, []) tt source3_new_lists)
    as (_ & Hb & Hs & _).
  split; [exact Hb | exact Hs].
Defined.

(** C9, as stated, fails: the children "a" and "c" of [source_shared]
    hand out the same stored list, empty before the first scan.  The
    first scan finds it empty at "a" and makes no bank there, then
    extends it in place with the page register of the memory of "c"; the
    second scan finds it with that register at "a" and makes a bank for
    "a": with the stateless [fixed_map] the (name, address) pairs of the
    banks are not those of the first scan.  And with the one child of
    [source_stored], whose stored list holds a register, the bank of
    the second scan is made over the list the first scan extended: it
    has the page register of the first scan besides its own. *)
Lemma shared_list_scans_differ :
  let first := scan fixed_map Interface_default ((array_shared, [[]]), tt) in
  let second := scan fixed_map Interface_default first.2 in
  let x := {| csr_name := "x"; csr_size := 8 |} in
  let page := {| csr_name := "big_page"; csr_size := 1 |} in
  let first' := scan fixed_map Interface_default ((array_stored, [[x]]), tt) in
  let second' := scan fixed_map Interface_default first'.2 in
  bank_addresses first.2.1.1 = [("c", 1)] /\
  bank_addresses second.2.1.1 = [("a", 1); ("c", 1)] /\
  bank_addresses second.2.1.1 <> bank_addresses first.2.1.1 /\
  CSRBank.simple_csrs <$> get_rmaps first'.2.1.1 = [[x; page]] /\
  CSRBank.simple_csrs <$> get_rmaps second'.2.1.1 = [[x; page; page]].
Proof.
  intros first second x page first' second'.
  assert (H1 : bank_addresses first.2.1.1 = [("c", 1)]) by reflexivity.
  assert (H2 : bank_addresses second.2.1.1 = [("a", 1); ("c", 1)])
    by reflexivity.
  split; [exact H1|]. split; [exact H2|].
  split; [rewrite H1, H2; discriminate|].
  split; reflexivity.
Qed.

End ScanFacts.

(** ** Further properties of the bridge and of the bank *)

Module DecodeFacts.
Import Bits Migen BitsFacts MigenFacts Examples.

(** The read-only flag of a bridge: the argument when it is given, else
    the attribute of the memory when it has one, else false. *)
Lemma make_read_only mem_or_size a ro ini b c :
  SRAM.make mem_or_size a ro ini b = Ok c ->
  SRAM.read_only c =
  match ro with
  | Some r => r
  | None => match bus_read_only (SRAM.mem c) with
            | Some r => r
            | None => false
            end
  end.
Proof.
  unfold SRAM.make. intros H.
  apply SRAMFacts.rbind_Ok in H as (m & Hm & H).
  apply SRAMFacts.rbind_Ok in H as (csrw & Hcsrw & H).
  apply SRAMFacts.rbind_Ok in H as (wb & Hwb & H).
  apply SRAMFacts.rbind_Ok in H as (pages & Hpages & H).
  apply SRAMFacts.rbind_Ok in H as (pb & Hpb & H).
  now injection H as <-.
Qed.

Lemma read_only_step c s i pv :
  SRAM.read_only c = true ->
  SRAM.storage (SRAM.step c s i pv) = SRAM.storage s /\
  SRAM.wregs (SRAM.step c s i pv) = SRAM.wregs s.
Proof.
  intros H. cbn [SRAM.step SRAM.storage SRAM.wregs].
  unfold SRAM.port_we. rewrite H, andb_false_r. now split.
Qed.

(** A bridge that is read-only, by the argument of the constructor or,
    without it, by the attribute of the memory, has no write side: no
    sequence of bus cycles changes the memory or the holding registers. *)
Theorem read_only_never_writes mem_or_size a ro ini b c :
  SRAM.make mem_or_size a ro ini b = Ok c ->
  ro = Some true \/ (ro = None /\ bus_read_only (SRAM.mem c) = Some true) ->
  forall s cycles,
    SRAM.storage (SRAM.run c s cycles) = SRAM.storage s /\
    SRAM.wregs (SRAM.run c s cycles) = SRAM.wregs s.
Proof.
  intros Hmake Hro.
  assert (H : SRAM.read_only c = true).
  { rewrite (make_read_only _ _ _ _ _ _ Hmake).
    destruct Hro as [->|[-> ->]]; reflexivity. }
  intros s cycles. revert s.
  induction cycles as [|x cycles IH]; intros s; [now split|].
  change (SRAM.run c s (x :: cycles))
    with (SRAM.run c (SRAM.step c s x.1 x.2) cycles).
  destruct (IH (SRAM.step c s x.1 x.2)) as [-> ->].
  now apply read_only_step.
Qed.

(** In a cycle at most one register of a bank has its write strobe
    asserted. *)
Theorem strobe_exclusive (c : CSRBank.t) (k k' : nat) (i : bus_in) :
  CSRBank.re c k i = Some true ->
  CSRBank.re c k' i = Some true ->
  k = k'.
Proof.
  unfold CSRBank.re. intros H H'.
  destruct (CSRBank.simple_csrs c !! k); [|discriminate].
  destruct (CSRBank.simple_csrs c !! k'); [|discriminate].
  cbn in H, H'. injection H as H. injection H' as H'.
  apply andb_prop in H as [_ H]. apply andb_prop in H' as [_ H'].
  apply Z.eqb_eq in H, H'. lia.
Qed.

(** A read of a selected bank at an index beyond its registers gives 0:
    the Case of the read path has no default and read_data was cleared. *)
Theorem read_beyond_registers (c : CSRBank.t) s (i : bus_in) (w : list Z) :
  (length (CSRBank.simple_csrs c) <= Z.to_nat (CSRBank.adr_index c i))%nat ->
  CSRBank.dat_r (CSRBank.step c s i w) = 0.
Proof.
  intros H. cbn [CSRBank.step CSRBank.dat_r]. unfold CSRBank.readable.
  rewrite (lookup_ge_None_2 _ _ H). now destruct (CSRBank.sel c i).
Qed.

(** Responders on buses of the same address width that are selected in
    the same cycle have the same assigned address: with distinct
    addresses at most one bank or bridge answers. *)
Theorem select_exclusive (i : bus_in) :
  (forall c1 c2 : SRAM.t,
     SRAM.flen_adr c1 = SRAM.flen_adr c2 ->
     SRAM.sel c1 i = true -> SRAM.sel c2 i = true ->
     SRAM.address c1 = SRAM.address c2) /\
  (forall c1 c2 : CSRBank.t,
     CSRBank.flen_adr c1 = CSRBank.flen_adr c2 ->
     CSRBank.sel c1 i = true -> CSRBank.sel c2 i = true ->
     CSRBank.address c1 = CSRBank.address c2) /\
  (forall (c1 : SRAM.t) (c2 : CSRBank.t),
     SRAM.flen_adr c1 = CSRBank.flen_adr c2 ->
     SRAM.sel c1 i = true -> CSRBank.sel c2 i = true ->
     SRAM.address c1 = CSRBank.address c2).
Proof.
  unfold SRAM.sel, CSRBank.sel.
  repeat split; intros c1 c2 Hw H1 H2;
    apply Z.eqb_eq in H1, H2; rewrite Hw in H1; congruence.
Qed.

Lemma read_only_never_writes_witness :
  SRAM.storage (SRAM.run sram_rom8x4 (SRAM.reset sram_rom8x4)
                  [(write_at 513 9, 0); (read_at 513, 0)])
  = [1; 2; 3; 4].
Proof.
  apply (read_only_never_writes (inl rom8x4) 1 None [] None sram_rom8x4
           eq_refl (or_intror (conj eq_refl eq_refl))).
Defined.

Lemma strobe_exclusive_witness : 1%nat = 1%nat.
Proof.
  apply (strobe_exclusive bank2 1 1 (write_at 1 7)); reflexivity.
Defined.

Lemma read_beyond_registers_witness :
  CSRBank.dat_r (CSRBank.step bank3 {| CSRBank.dat_r := 9 |}
                              (read_at 3) [5; 6; 7]) = 0.
Proof.
  apply (read_beyond_registers bank3 _ (read_at 3) [5; 6; 7]).
  apply le_n.
Defined.

Lemma select_exclusive_witness :
  SRAM.address sram8x4 = SRAM.address sram_rom8x4.
Proof.
  apply (proj1 (select_exclusive (read_at 513)) sram8x4 sram_rom8x4);
    reflexivity.
Defined.

End DecodeFacts.

(** ** Construction of the bridge *)

Module MakeFacts.
Import Bits Migen BitsFacts MigenFacts SRAM SRAMFacts Examples.

(** A bridge exposes a page register exactly when its memory takes more
    than 512 bus words: get_csrs is empty iff depth * words per entry is
    at most 512. *)
Theorem page_register_iff mem_or_size a ro ini b c :
  make mem_or_size a ro ini b = Ok c ->
  (get_csrs c = [] <-> depth (mem c) * csrw_per_memw c <= 512).
Proof.
  intros H. apply make_Ok in H as (_ & _ & _ & _ & _ & Hlog & Hpage & _).
  rewrite WriteFacts.log2_int_log2_up in Hlog. injection Hlog as Hlog.
  unfold get_csrs. rewrite Hpage.
  set (x := depth (mem c) * csrw_per_memw c) in *.
  destruct (Z.eqb_spec (page_bits c) 0) as [H0|H0].
  - split; [intros _|reflexivity].
    rewrite H0 in Hlog. apply Z.log2_up_null in Hlog.
    apply Z.nlt_ge. intros Hx.
    assert (2 <= (x + 511) / 512) by (apply Z.div_le_lower_bound; lia). lia.
  - split; [discriminate|]. intros Hx. exfalso. apply H0.
    rewrite <- Hlog. apply Z.log2_up_null.
    assert ((x + 511) / 512 < 2) by (apply Z.div_lt_upper_bound; lia). lia.
Qed.

Lemma page_register_iff_witness :
  get_csrs sram32x16 = [] <-> 16 * 4 <= 512.
Proof.
  apply (page_register_iff (inl mem32x16) 3 None [] None sram32x16 eq_refl).
Defined.

(** Given a size in bytes instead of a memory, the constructor makes a
    memory as wide as the bus, of size // (data_width // 8) words: one
    bus word per entry and no word index; on a bus of less than 8 bits
    the division raises. *)
Theorem make_from_size size a ro ini b :
  let D := data_width
             match b with Some b => b | None => Interface_default end in
  (0 <= D < 8 -> make (inr size) a ro ini b = Raise ZeroDivisionError) /\
  (forall c, make (inr size) a ro ini b = Ok c ->
     0 < D ->
     width (mem c) = D /\ depth (mem c) = size / (D / 8) /\
     init (mem c) = ini /\
     csrw_per_memw c = 1 /\ word_bits c = 0).
Proof.
  intros D. split.
  - intros HD. unfold make. fold D. cbn [rbind]. unfold floordiv at 1.
    rewrite Z.div_small by lia. reflexivity.
  - intros c H HD. unfold make in H. fold D in H.
    apply rbind_Ok in H as (m & Hm & H).
    apply rbind_Ok in Hm as (bytes & Hbytes & Hm).
    apply rbind_Ok in Hm as (d & Hd & Hm).
    apply floordiv_Ok in Hbytes as [_ ->]. apply floordiv_Ok in Hd as [_ ->].
    injection Hm as <-. cbn [width depth] in H.
    apply rbind_Ok in H as (csrw & Hcsrw & H).
    apply floordiv_Ok in Hcsrw as [_ ->].
    assert (Hone : (D + D - 1) / D = 1).
    { symmetry. apply (Z.div_unique _ _ 1 (D - 1)); lia. }
    rewrite Hone in H.
    apply rbind_Ok in H as (wb & Hwb & H).
    change (log2_int 1 true) with (Ok 0) in Hwb. injection Hwb as <-.
    apply rbind_Ok in H as (pages & _ & H).
    apply rbind_Ok in H as (pb & _ & H).
    injection H as <-. cbn. repeat split.
Qed.

Lemma make_from_size_witness :
  make (inr 64) 0 None [] (Some {| data_width := 4; address_width := 14 |})
  = Raise ZeroDivisionError.
Proof.
  apply (proj1 (make_from_size 64 0 None []
                  (Some {| data_width := 4; address_width := 14 |}))).
  cbn. lia.
Defined.

End MakeFacts.

(** ** Any four bytes through a 32-bit memory on a bus of 8 bits *)

Module Word32Facts.
Import Bits Migen BitsFacts MigenFacts SRAM SRAMFacts WriteFacts Examples Word32.

(** The memory word made of four bytes, [b0] most significant. *)
Lemma word_of_bytes_range b0 b1 b2 b3 :
  0 <= b0 < 256 -> 0 <= b1 < 256 -> 0 <= b2 < 256 -> 0 <= b3 < 256 ->
  0 <= b3 + b2 * 2 ^ 8 + b1 * 2 ^ 16 + b0 * 2 ^ 24 < 2 ^ 32.
Proof. lia. Qed.

Lemma chooser32_bytes b0 b1 b2 b3 :
  0 <= b0 < 256 -> 0 <= b1 < 256 -> 0 <= b2 < 256 -> 0 <= b3 < 256 ->
  let word := b3 + b2 * 2 ^ 8 + b1 * 2 ^ 16 + b0 * 2 ^ 24 in
  chooser 32 word 0 8 4 true = b0 /\
  chooser 32 word 1 8 4 true = b1 /\
  chooser 32 word 2 8 4 true = b2 /\
  chooser 32 word 3 8 4 true = b3.
Proof.
  intros H0 H1 H2 H3 word.
  assert (Hw : 0 <= word < 2 ^ 32) by (apply word_of_bytes_range; lia).
  change (chooser 32 word 0 8 4 true) with (slice 32 word 24 32).
  change (chooser 32 word 1 8 4 true) with (slice 32 word 16 24).
  change (chooser 32 word 2 8 4 true) with (slice 32 word 8 16).
  change (chooser 32 word 3 8 4 true) with (slice 32 word 0 8).
  rewrite !slice_div_mod.
  change (Z.max 0 32) with 32.
  change (clamp 32 24) with 24. change (clamp 32 16) with 16.
  change (clamp 32 8) with 8. change (clamp 32 0) with 0.
  change (slice_len 32 24 32) with 8. change (slice_len 32 16 24) with 8.
  change (slice_len 32 8 16) with 8. change (slice_len 32 0 8) with 8.
  rewrite (Z.mod_small word) by exact Hw.
  subst word. change (2 ^ 0) with 1. change (2 ^ 8) with 256.
  change (2 ^ 16) with 65536. change (2 ^ 24) with 16777216.
  repeat split.
  - symmetry. rewrite Z.mod_small.
    + apply (Z.div_unique _ _ _ (b3 + b2 * 256 + b1 * 65536)); lia.
    + split; [apply Z.div_pos; lia | apply Z.div_lt_upper_bound; lia].
  - symmetry.
    rewrite <- (Z.div_unique (b3 + b2 * 256 + b1 * 65536 + b0 * 16777216)
               65536 (b1 + b0 * 256) (b3 + b2 * 256)) by lia.
    apply (Z.mod_unique _ _ b0); lia.
  - symmetry.
    rewrite <- (Z.div_unique (b3 + b2 * 256 + b1 * 65536 + b0 * 16777216)
               256 (b2 + b1 * 256 + b0 * 65536) b3) by lia.
    apply (Z.mod_unique _ _ (b1 + b0 * 256)); lia.
  - symmetry. rewrite Z.div_1_r.
    apply (Z.mod_unique _ _ (b2 + b1 * 256 + b0 * 65536)); lia.
Qed.

Lemma Cat_four_bytes d0 d1 d2 d3 :
  trunc 32 (Cat ((8, d3) :: ((fun v => (8, v))
                   <$> reverse [trunc 8 d0; trunc 8 d1; trunc 8 d2])))
  = trunc 8 d3 + trunc 8 d2 * 2 ^ 8 + trunc 8 d1 * 2 ^ 16
    + trunc 8 d0 * 2 ^ 24.
Proof.
  change (reverse [trunc 8 d0; trunc 8 d1; trunc 8 d2])
    with [trunc 8 d2; trunc 8 d1; trunc 8 d0].
  cbn [fmap list_fmap]. rewrite !Cat_cons. cbn [Cat].
  rewrite !trunc_idemp. change (Z.max 0 8) with 8.
  pose proof (trunc_range 8 d0) as H0. pose proof (trunc_range 8 d1) as H1.
  pose proof (trunc_range 8 d2) as H2. pose proof (trunc_range 8 d3) as H3.
  change (2 ^ Z.max 0 8) with 256 in *.
  change (2 ^ 8) with 256. change (2 ^ 16) with 65536.
  change (2 ^ 24) with 16777216.
  rewrite trunc_small by (change (2 ^ Z.max 0 32) with 4294967296; lia).
  lia.
Qed.

(** The registers after four selected writes to the sub-words 0..3. *)
Lemma four_writes_state m a ro ini b c s pv e0 e1 e2 e3 a0 a1 a2 a3
    d0 d1 d2 d3 :
  make (inl m) a ro ini b = Ok c ->
  width m = 32 ->
  flen_dat c = 8 ->
  read_only c = false ->
  targets c pv e0 0 a0 -> targets c pv e1 1 a1 ->
  targets c pv e2 2 a2 -> targets c pv e3 3 a3 ->
  csrw_per_memw c = 4 /\ word_bits c = 2 /\
  (Initiator.run c pv s
     [Initiator.TWrite a0 d0; Initiator.TWrite a1 d1;
      Initiator.TWrite a2 d2; Initiator.TWrite a3 d3]).2
  = {| sel_r := true; word_index := 3;
       wregs := [trunc 8 d0; trunc 8 d1; trunc 8 d2];
       storage := <[Z.to_nat e3 := word_of_bytes d0 d1 d2 d3]> (storage s);
       memadr := e3 |}.
Proof.
  intros Hmake Hw Hd Hro T0 T1 T2 T3.
  pose proof (make_Ok _ _ _ _ _ _ Hmake)
    as (Hbus & _ & _ & Hcs & Hlog & _ & _ & Hmem).
  cbn in Hmem. pose proof Hd as Hdat. unfold flen_dat in Hd.
  rewrite Hbus in Hd.
  rewrite Hmem, Hw, Hd in Hcs. change ((32 + 8 - 1) / 8) with 4 in Hcs.
  rewrite Hcs in Hlog. injection Hlog as Hwb. symmetry in Hwb.
  assert (Hwidth : width (mem c) = 32) by now rewrite Hmem.
  split; [exact Hcs|]. split; [exact Hwb|].
  cbn [Initiator.run Initiator.perform snd fst].
  rewrite (step_write32_low c Hcs Hwb Hdat Hro pv e0 s 0 a0 d0 T0) by lia.
  rewrite (step_write32_low c Hcs Hwb Hdat Hro pv e1 _ 1 a1 d1 T1) by lia.
  rewrite (step_write32_low c Hcs Hwb Hdat Hro pv e2 _ 2 a2 d2 T2) by lia.
  rewrite (step_write32_last c Hcs Hwb Hdat Hwidth Hro pv e3 _ a3 d3 T3).
  cbn [wregs storage]. unfold word_of_bytes.
  rewrite <- Cat_four_bytes. reflexivity.
Qed.

(** The holding registers are not scoped by entry: of four selected
    writes to the sub-words 0, 1, 2, 3, addressed to any entries, only
    the last one writes the memory, at its own entry, and the word it
    writes takes its upper bytes from the three earlier writes whatever
    entries these addressed.  Nothing else in the memory changes. *)
Theorem four_writes_one_word m a ro ini b c s pv e0 e1 e2 e3 a0 a1 a2 a3
    d0 d1 d2 d3 :
  make (inl m) a ro ini b = Ok c ->
  width m = 32 ->
  flen_dat c = 8 ->
  read_only c = false ->
  targets c pv e0 0 a0 -> targets c pv e1 1 a1 ->
  targets c pv e2 2 a2 -> targets c pv e3 3 a3 ->
  storage (Initiator.run c pv s
             [Initiator.TWrite a0 d0; Initiator.TWrite a1 d1;
              Initiator.TWrite a2 d2; Initiator.TWrite a3 d3]).2
  = <[Z.to_nat e3 := trunc 8 d3 + trunc 8 d2 * 2 ^ 8 + trunc 8 d1 * 2 ^ 16
                     + trunc 8 d0 * 2 ^ 24]> (storage s).
Proof.
  intros Hmake Hw Hd Hro T0 T1 T2 T3.
  destruct (four_writes_state m a ro ini b c s pv e0 e1 e2 e3 a0 a1 a2 a3
              d0 d1 d2 d3 Hmake Hw Hd Hro T0 T1 T2 T3) as (_ & _ & ->).
  reflexivity.
Qed.

Lemma four_writes_one_word_witness :
  storage (Initiator.run sram32x16 0 (reset sram32x16)
             [Initiator.TWrite 1540 0xAA; Initiator.TWrite 1557 0x22;
              Initiator.TWrite 1558 0x33; Initiator.TWrite 1559 0x44]).2
  = <[Z.to_nat 5 := trunc 8 0x44 + trunc 8 0x33 * 2 ^ 8 + trunc 8 0x22 * 2 ^ 16
                    + trunc 8 0xAA * 2 ^ 24]> (storage (reset sram32x16)).
Proof.
  apply (four_writes_one_word mem32x16 3 None [] None sram32x16
           (reset sram32x16) 0 1 5 5 5 1540 1557 1558 1559);
    repeat split.
Defined.

Lemma bus_dat_r32_word c k wr st e w :
  csrw_per_memw c = 4 -> word_bits c = 2 -> flen_dat c = 8 ->
  st !! Z.to_nat e = Some w -> 0 <= w < 2 ^ 32 ->
  bus_dat_r c {| sel_r := true; word_index := k; wregs := wr;
                 storage := st; memadr := e |}
  = chooser 32 w k 8 4 true.
Proof.
  intros Hcs Hwb Hdat Hst Hw. unfold bus_dat_r, port_dat_r.
  cbn [sel_r word_index storage memadr].
  rewrite Hst, Hwb, Hcs, Hdat. cbn [negb Z.eqb default Z.mul Pos.mul].
  rewrite trunc_small by exact Hw. reflexivity.
Qed.

(** Round trip for any data: four selected writes to the sub-words 0..3
    of an entry within the memory, then reads of these sub-words, return
    the four bytes written (the write data as the 8-bit bus carries
    them), in order. *)
Theorem bytes_round_trip m a ro ini b c s pv e a0 a1 a2 a3 d0 d1 d2 d3 :
  make (inl m) a ro ini b = Ok c ->
  width m = 32 ->
  flen_dat c = 8 ->
  read_only c = false ->
  0 <= e < Z.of_nat (length (storage s)) ->
  targets c pv e 0 a0 -> targets c pv e 1 a1 ->
  targets c pv e 2 a2 -> targets c pv e 3 a3 ->
  (Initiator.run c pv
     (Initiator.run c pv s
        [Initiator.TWrite a0 d0; Initiator.TWrite a1 d1;
         Initiator.TWrite a2 d2; Initiator.TWrite a3 d3]).2
     [Initiator.TRead a0; Initiator.TRead a1;
      Initiator.TRead a2; Initiator.TRead a3]).1
  = [trunc 8 d0; trunc 8 d1; trunc 8 d2; trunc 8 d3].
Proof.
  intros Hmake Hw Hd Hro He T0 T1 T2 T3.
  destruct (four_writes_state m a ro ini b c s pv e e e e a0 a1 a2 a3
              d0 d1 d2 d3 Hmake Hw Hd Hro T0 T1 T2 T3) as (Hcs & Hwb & ->).
  assert (Hst : <[Z.to_nat e := word_of_bytes d0 d1 d2 d3]> (storage s)
                  !! Z.to_nat e = Some (word_of_bytes d0 d1 d2 d3))
    by (apply list_lookup_insert_eq; lia).
  pose proof (trunc_range 8 d0) as H0. pose proof (trunc_range 8 d1) as H1.
  pose proof (trunc_range 8 d2) as H2. pose proof (trunc_range 8 d3) as H3.
  change (2 ^ Z.max 0 8) with 256 in *.
  assert (Hrange : 0 <= word_of_bytes d0 d1 d2 d3 < 2 ^ 32)
    by (apply word_of_bytes_range; lia).
  destruct (chooser32_bytes _ _ _ _ H0 H1 H2 H3) as (C0 & C1 & C2 & C3).
  fold (word_of_bytes d0 d1 d2 d3) in C0, C1, C2, C3.
  cbn [Initiator.run Initiator.perform snd fst].
  rewrite !(step_read32 c Hcs Hwb Hro pv e _ 0 a0 T0).
  rewrite !(step_read32 c Hcs Hwb Hro pv e _ 1 a1 T1).
  rewrite !(step_read32 c Hcs Hwb Hro pv e _ 2 a2 T2).
  rewrite !(step_read32 c Hcs Hwb Hro pv e _ 3 a3 T3).
  cbn [storage].
  rewrite !(bus_dat_r32_word c _ _ _ e _ Hcs Hwb Hd Hst Hrange).
  now rewrite C0, C1, C2, C3.
Qed.

Lemma bytes_round_trip_witness :
  (Initiator.run sram32x16 0
     (Initiator.run sram32x16 0 (reset sram32x16)
        [Initiator.TWrite 1556 0xDE; Initiator.TWrite 1557 0xAD;
         Initiator.TWrite 1558 0xBE; Initiator.TWrite 1559 0x1EF]).2
     [Initiator.TRead 1556; Initiator.TRead 1557;
      Initiator.TRead 1558; Initiator.TRead 1559]).1
  = [trunc 8 0xDE; trunc 8 0xAD; trunc 8 0xBE; trunc 8 0x1EF].
Proof.
  apply (bytes_round_trip mem32x16 3 None [] None sram32x16
           (reset sram32x16) 0 5 1556 1557 1558 1559);
    try (repeat split; fail).
  change (0 <= 5 < 16). lia.
Defined.

End Word32Facts.
